(** * Memex search: latest-event lookups and lookback aggregation

    A shallow embedding of the time-windowed "latest event per page"
    queries of the Memex search backend ([mapUrlsToLatestEvents],
    [groupLatestEventsByUrl], [lookbackFromEndDate] and
    [lookbackBookmarksTime]) together with the properties established
    about them.

    Conventions of the embedding:
    - a timestamp is an integer ([Z]); a page identity (URL) is a [string];
      the only arithmetic on a timestamp, [min - 1], is the subtraction of
      doubles, which rounds from 2^53 on;
    - a [PageResultsMap] (a JS [Map] from URL to time) is a [gmap string Z];
      the functions only ever iterate over such a map with callbacks that
      write the key they are called with, so the insertion order of the
      JS [Map] is not observable in the mapping that is returned;
    - the Dexie tables are finite collections of records, and a query
      chain ([where], [between], [equals], [anyOf], [reverse], [until],
      [each]) is the list of records it visits, in index order;
    - [Date.now()] is an explicit argument [now], the same for the calls
      made within one invocation;
    - an [async] function that contains a [while] loop takes fuel and
      returns a [Completion]: [Pending] is a promise that has not settled
      within the fuel. *)

From stdpp Require Import gmap strings list fin_maps sorting.
From Stdlib Require Import ZArith Lia.

Local Open Scope Z_scope.

(** ** The event store *)

(** A record of either table, written as the primary key of [visits],
    [[time, url]]. *)
Definition Event : Type := Z * string.

(** [db.visits] has the compound primary key [[time+url]] and an index on
    [url]; [db.bookmarks] is indexed on [time] and is looked up by [url]. *)
Record Database : Type := {
  visits : list Event;
  bookmarks : list Event;
}.

(** Order of the keys [[time, url]]: by time, then by URL.  It is also the
    order of the [time] index of bookmarks, whose ties are ordered by URL.
    URLs are compared byte by byte, which is the order of IndexedDB on
    ASCII URLs; the order of tied records only decides which of them a
    scan meets first. *)
Definition key_leb (a b : Event) : bool :=
  (a.1 <? b.1) || ((a.1 =? b.1) && String.leb a.2 b.2).

Definition key_le (a b : Event) : Prop := Is_true (key_leb a b).

Definition url_le (a b : Event) : Prop := Is_true (String.leb a.2 b.2).

Global Instance key_le_dec : RelDecision key_le.
Proof. intros a b; unfold key_le; apply _. Defined.

Global Instance url_le_dec : RelDecision url_le.
Proof. intros a b; unfold url_le; apply _. Defined.

(** The records of a table in ascending order of [[time, url]]. *)
Definition byTime (table : list Event) : list Event := merge_sort key_le table.

(** The records of a table in ascending order of [url]. *)
Definition byUrl (table : list Event) : list Event := merge_sort url_le table.

(** A JS number that is an integer or [Infinity] (the value of
    [Math.min()] over no arguments). *)
Inductive number : Type :=
  | Finite (z : Z)
  | Infinity.

Definition number_geb (n : number) (t : Z) : bool :=
  match n with
  | Finite u => t <=? u
  | Infinity => true
  end.

(** [Math.min(...values)]. *)
Definition Math_min (values : list Z) : number :=
  foldr (fun t acc => match acc with
                      | Finite u => Finite (Z.min t u)
                      | Infinity => Finite t
                      end) Infinity values.

(** The double nearest to an integer, ties to even.  The integers up to
    2^53 in absolute value are doubles; beyond, the doubles are the
    multiples of the unit in the last place, [2 ^ (log2 |z| - 52)]. *)
Definition double_round (z : Z) : Z :=
  if Z.abs z <=? 9007199254740992 then z
  else
    let ulp := 2 ^ (Z.log2 (Z.abs z) - 52) in
    let q := z / ulp in
    let r := z mod ulp in
    if 2 * r <? ulp then q * ulp
    else if ulp <? 2 * r then (q + 1) * ulp
    else if Z.even q then q * ulp else (q + 1) * ulp.
Arguments double_round : simpl never.

(** [n - 1] on a JS number: the subtraction of doubles, which is exact
    while the difference is at most 2^53 in absolute value and rounds
    beyond, and which leaves [Infinity] as it is. *)
Definition minus_one (n : number) : number :=
  match n with
  | Finite u => Finite (double_round (u - 1))
  | Infinity => Infinity
  end.

(** [.where('time').between(lower, upper, true, true)]: both bounds
    inclusive; a range with [lower > upper] is the empty collection. *)
Definition between (lower : Z) (upper : number) (table : list Event) : list Event :=
  filter (fun r => Is_true ((lower <=? r.1) && number_geb upper r.1)) (byTime table).

(** Modelled from the spec: [Storage.MIN_STR] and [Storage.MAX_STR] are not
    part of the sources; the spec calls them the sentinel MIN/MAX identity
    bounds of the composite key range, so every page identity lies between
    them and
    [.where('[time+url]').between([startDate, MIN_STR], [endDate, MAX_STR], true, true)]
    selects the records with [startDate <= time <= endDate]. *)
Definition betweenKeys (startDate endDate : Z) (table : list Event) : list Event :=
  between startDate (Finite endDate) table.

(** [.where('url').equals(currUrl)]: the records of one page, which the
    [url] index keeps in primary-key order, that is by time. *)
Definition whereUrlEquals (currUrl : string) (table : list Event) : list Event :=
  filter (fun r => r.2 = currUrl) (byTime table).

(** [.where('url').anyOf(urls)]: the records of the listed pages, in
    ascending order of URL. *)
Definition whereUrlAnyOf (urls : list string) (table : list Event) : list Event :=
  filter (fun r => r.2 ∈ urls) (byUrl table).

(** [.until(stop).each(callback)]: [stop] is evaluated before each record
    is handed to [callback]; once it holds the iteration ends and the
    record is not handed over. *)
Fixpoint each_until {St Rec : Type} (stop : St -> bool) (callback : St -> Rec -> St)
    (records : list Rec) (s : St) : St :=
  match records with
  | [] => s
  | r :: rest => if stop s then s else each_until stop callback rest (callback s r)
  end.

(** ** Outcome of an [async] function *)

(** The promise of an [async] function is fulfilled with a value, rejected
    (an exception was thrown; no function below throws), or still pending
    when the fuel given to its loop runs out. *)
Inductive Completion (A : Type) : Type :=
  | Fulfilled (a : A)
  | Rejected
  | Pending.
Arguments Fulfilled {A} a.
Arguments Rejected {A}.
Arguments Pending {A}.

(** [Partial<SearchParams>]: every field may be [undefined]. *)
Record SearchParams : Type := {
  startDate : option Z;
  endDate : option Z;
  skip : option Z;
  limit : option Z;
  bookmarksFlag : option bool;
}.

(** ** mapUrlsToLatestEvents *)

(** [bound != null && bound < time] *)
Definition isBefore (bound : option Z) (time : Z) : bool :=
  match bound with
  | Some b => b <? time
  | None => false
  end.

(** [bound != null && bound > time] *)
Definition isAfter (bound : option Z) (time : Z) : bool :=
  match bound with
  | Some b => b >? time
  | None => false
  end.

Section LatestEvents.
Variables (endDate' startDate' : option Z).

(** [attemptAdd(urlTimeMap, skipDateCheck)(time, url)]: the map after the
    call and the returned boolean.  [existing] is
    [urlTimeMap.get(url) || 0]. *)
Definition attemptAdd (urlTimeMap : gmap string Z) (skipDateCheck : bool)
    (time : Z) (url : string) : gmap string Z * bool :=
  let existing := default 0 (urlTimeMap !! url) in
  if (existing >? time)
     || (negb skipDateCheck && isBefore endDate' time)
     || (negb skipDateCheck && isAfter startDate' time)
  then (urlTimeMap, false)
  else (<[url:=time]> urlTimeMap, true).

(** [source.forEach(attemptAdd(target))] *)
Definition forEachAttemptAdd (target source : gmap string Z) : gmap string Z :=
  map_fold (fun url time acc => (attemptAdd acc false time url).1) target source.

(** The reverse scan of the visits of [currUrl]; its state is the shared
    [latestVisits] and the flag [doneFlags[i]], which the callback sets to
    what [attemptAdd] returns. *)
Definition scanVisitsOf (db : Database) (latestVisits : gmap string Z)
    (currUrl : string) : gmap string Z :=
  (each_until (fun s : gmap string Z * bool => s.2)
     (fun s r => attemptAdd s.1 false r.1 r.2)
     (reverse (whereUrlEquals currUrl (visits db)))
     (latestVisits, false)).1.

(** The body of [mapUrlsToLatestEvents].  The scans of [Promise.all] write
    [latestVisits] under the URL they query, one record at a time; they
    are run here in array order. *)
Definition latestEventsOf (bookmarksOnly : option bool)
    (db : Database) (urls : list string) : gmap string Z :=
  let latestBookmarks :=
    foldl (fun m r => (attemptAdd m (default false bookmarksOnly) r.1 r.2).1) ∅
      (whereUrlAnyOf urls (bookmarks db)) in
  let urlsToCheck :=
    if default false bookmarksOnly then (map_to_list latestBookmarks).*1 else urls in
  let latestVisits := foldl (scanVisitsOf db) ∅ urlsToCheck in
  let latestEvents := forEachAttemptAdd ∅ latestVisits in
  forEachAttemptAdd latestEvents latestBookmarks.

End LatestEvents.

Definition mapUrlsToLatestEvents (db : Database) (params : SearchParams)
    (urls : list string) : gmap string Z :=
  latestEventsOf (endDate params) (startDate params) (bookmarksFlag params) db urls.

(** ** lookbackFromEndDate *)

(** The callback of the visits scan: only the first (latest) visit of an
    allowed page is recorded. *)
Definition recordVisit (isAllowed : string -> bool) (latestVisits : gmap string Z)
    (r : Event) : gmap string Z :=
  if negb (bool_decide (is_Some (latestVisits !! r.2))) && isAllowed r.2
  then <[r.2:=r.1]> latestVisits
  else latestVisits.

(** The callback of the bookmark scans: [map.set(url, time)]. *)
Definition recordBookmark (m : gmap string Z) (r : Event) : gmap string Z :=
  <[r.2:=r.1]> m.

(** [() => map.size >= skip + limit] *)
Definition enough (skip limit : Z) (m : gmap string Z) : bool :=
  Z.of_nat (size m) >=? skip + limit.

(** [addToMap], called by [forEach] with the time and the URL of an entry. *)
Definition addToMap (url : string) (time : Z) (results : gmap string Z) : gmap string Z :=
  let existing := default 0 (results !! url) in
  if existing <? time then <[url:=time]> results else results.

(** Lookback from [endDate] over the visits. *)
Definition latestVisitsScan (db : Database) (isAllowed : string -> bool)
    (startDate endDate skip limit : Z) : gmap string Z :=
  each_until (enough skip limit) (recordVisit isAllowed)
    (reverse (betweenKeys startDate endDate (visits db))) ∅.

(** Similar lookback on bookmarks. *)
Definition latestBookmarksScan (db : Database)
    (startDate endDate skip limit : Z) : gmap string Z :=
  each_until (enough skip limit) recordBookmark
    (reverse (between startDate (Finite endDate) (bookmarks db))) ∅.

(** Merge results. *)
Definition mergeLookback (latestVisits latestBookmarks : gmap string Z) : gmap string Z :=
  map_fold addToMap (map_fold addToMap ∅ latestVisits) latestBookmarks.

Definition lookbackFromEndDate (now : Z) (db : Database) (params : SearchParams)
    (isAllowed : string -> bool) : gmap string Z :=
  let startDate := default 0 (startDate params) in
  let endDate := default now (endDate params) in
  let skip := default 0 (skip params) in
  let limit := default 10 (limit params) in
  mergeLookback
    (latestVisitsScan db isAllowed startDate endDate skip limit)
    (latestBookmarksScan db startDate endDate skip limit).

(** ** lookbackBookmarksTime *)

(** The variables of the [while] loop. *)
Record LookbackState : Type := {
  results : gmap string Z;
  upperBound : number;
  bmsExhausted : bool;
}.

(** [new Map(entries)]: the entries are set one after the other. *)
Definition newMap (entries : list (string * Z)) : gmap string Z :=
  foldl (fun m e => <[e.1:=e.2]> m) ∅ entries.

(** [([, time]) => time >= startDate && time <= endDate] *)
Definition inBounds (startDate endDate : Z) (e : string * Z) : Prop :=
  startDate ≤ e.2 ∧ e.2 ≤ endDate.

Global Instance inBounds_dec startDate endDate e : Decision (inBounds startDate endDate e).
Proof. unfold inBounds; apply _. Defined.

Section BookmarksLookback.
Variables (db : Database) (startDate' endDate' skip' limit' : Z).

(** Grab the latest page of bookmarks. *)
Definition fetchBookmarks (bound : number) : gmap string Z :=
  each_until (enough skip' limit') recordBookmark
    (reverse (between startDate' bound (bookmarks db))) ∅.

(** The callback of the visit scan made for one bookmark; the state is
    [bms] and [done]. *)
Definition replaceWithVisit (currentUrl : string) (s : gmap string Z * bool)
    (r : Event) : gmap string Z * bool :=
  if r.1 <=? endDate' then (<[currentUrl:=r.1]> s.1, true) else s.

(** The body of the [for ... of bms] loop. *)
Definition backfillEntry (currentUrl : string) (currentTime : Z)
    (bms : gmap string Z) : gmap string Z :=
  if currentTime >? endDate'
  then (each_until (fun s : gmap string Z * bool => s.2)
          (replaceWithVisit currentUrl)
          (reverse (whereUrlEquals currentUrl (visits db)))
          (bms, false)).1
  else bms.

(** The loop runs over the entries of [bms] and sets only the entry it
    is at. *)
Definition backfill (bms : gmap string Z) : gmap string Z :=
  map_fold backfillEntry bms bms.

(** [results.size < limit && !bmsExhausted] *)
Definition lookbackCond (st : LookbackState) : bool :=
  (Z.of_nat (size (results st)) <? limit') && negb (bmsExhausted st).

(** One iteration of the [while] loop. *)
Definition lookbackBody (st : LookbackState) : LookbackState :=
  let bms := fetchBookmarks (upperBound st) in
  let exhausted :=
    if Z.of_nat (size bms) <? skip' + limit' then true else bmsExhausted st in
  let bms' := backfill bms in
  let results' :=
    newMap (map_to_list (results st)
            ++ filter (inBounds startDate' endDate') (map_to_list bms')) in
  {| results := results';
     upperBound := minus_one (Math_min (map_to_list results').*2);
     bmsExhausted := exhausted |}.

Fixpoint lookbackLoop (fuel : nat) (st : LookbackState) : Completion LookbackState :=
  if lookbackCond st
  then match fuel with
       | O => Pending
       | S fuel' => lookbackLoop fuel' (lookbackBody st)
       end
  else Fulfilled st.

End BookmarksLookback.

(** The variables before the loop. *)
Definition lookbackStart (now : Z) : LookbackState :=
  {| results := ∅; upperBound := Finite now; bmsExhausted := false |}.

Definition lookbackBookmarksTime (fuel : nat) (now : Z) (db : Database)
    (params : SearchParams) : Completion (gmap string Z) :=
  let startDate := default 0 (startDate params) in
  let endDate := default now (endDate params) in
  let skip := default 0 (skip params) in
  let limit := default 10 (limit params) in
  match lookbackLoop db startDate endDate skip limit fuel (lookbackStart now) with
  | Fulfilled st => Fulfilled (results st)
  | Rejected => Rejected
  | Pending => Pending
  end.

(** ** groupLatestEventsByUrl *)

Definition groupLatestEventsByUrl (fuel : nat) (now : Z) (db : Database)
    (params : SearchParams) (isAllowed : string -> bool) : Completion (gmap string Z) :=
  if default false (bookmarksFlag params)
  then lookbackBookmarksTime fuel now db params
  else Fulfilled (lookbackFromEndDate now db params isAllowed).

(** * Vocabulary of the properties *)

(** [time] respects the bounds that are defined. *)
Definition withinBounds (endDate startDate : option Z) (time : Z) : Prop :=
  (∀ e, endDate = Some e → time ≤ e) ∧ (∀ s, startDate = Some s → s ≤ time).

(** The admission condition in the words of the specification: no entry
    recorded for the page has a greater or equal time, and the window
    check is skipped or passes. *)
Definition admitsAsSpecified (endDate startDate : option Z) (m : gmap string Z)
    (skipWindowCheck : bool) (time : Z) (pageId : string) : Prop :=
  (∀ t, m !! pageId = Some t → ¬ time ≤ t)
  ∧ (skipWindowCheck = true ∨ withinBounds endDate startDate time).

(** Successive calls of [attemptAdd] on one page, each with its flag and
    its time. *)
Definition attemptAdds (endDate startDate : option Z) (calls : list (bool * Z))
    (url : string) (m : gmap string Z) : gmap string Z :=
  foldl (fun acc c => (attemptAdd endDate startDate acc c.1 c.2 url).1) m calls.

(** Every time of the map respects the bounds that are defined. *)
Definition allWithin (endDate startDate : option Z) (m : gmap string Z) : Prop :=
  ∀ k t, m !! k = Some t → withinBounds endDate startDate t.

(** Order by time alone. *)
Definition time_le (a b : Event) : Prop := a.1 ≤ b.1.

(** The time of the first record of a scan that is not later than
    [endDate]. *)
Definition firstUpTo (endDate : Z) (records : list Event) : option Z :=
  fst <$> head (filter (fun r : Event => r.1 ≤ endDate) records).

(** [v] is the most recent visit time of the page that is not later than
    [endDate]. *)
Definition isLatestVisitUpTo (db : Database) (endDate : Z) (url : string) (v : Z) : Prop :=
  (v, url) ∈ visits db ∧ v ≤ endDate
  ∧ ∀ v', (v', url) ∈ visits db → v' ≤ endDate → v' ≤ v.

(** The time of an entry of [bms] after its turn in the backfill loop. *)
Definition backfilled (db : Database) (endDate : Z) (url : string) (time : Z) : Z :=
  if time >? endDate
  then default time (firstUpTo endDate (reverse (whereUrlEquals url (visits db))))
  else time.

(** After an iteration, [upperBound] is one less than the least time of
    [results], and the times of [results] lie in the window if they did
    before. *)
Definition lookbackInv (startDate' endDate' : Z) (st : LookbackState) : Prop :=
  upperBound st = minus_one (Math_min (map_to_list (results st)).*2)
  ∧ ∀ k t, results st !! k = Some t → startDate' ≤ t ≤ endDate'.

(** [(t, k)] is an event of the store: a visit or a bookmark of page [k]
    at time [t]. *)
Definition isEvent (db : Database) (k : string) (t : Z) : Prop :=
  (t, k) ∈ visits db ∨ (t, k) ∈ bookmarks db.

(** An event that [attemptAdd] can record with the date check on: its time
    is not negative ([existing] is 0 for a page without entry) and respects
    the bounds that are defined. *)
Definition qualifies (endDate startDate : option Z) (db : Database)
    (k : string) (t : Z) : Prop :=
  0 ≤ t ∧ withinBounds endDate startDate t ∧ isEvent db k t.

(** What every entry of the maps of [mapUrlsToLatestEvents] satisfies. *)
Definition goodEntry (bookmarksOnly : option bool) (db : Database)
    (urls : list string) (k : string) (t : Z) : Prop :=
  0 ≤ t ∧ k ∈ urls ∧ isEvent db k t
  ∧ (default false bookmarksOnly = true → ∃ b, (b, k) ∈ bookmarks db).

(** ** Scenarios *)

Definition query (s e : Z) (sk li : Z) (b : bool) : SearchParams :=
  {| startDate := Some s; endDate := Some e; skip := Some sk; limit := Some li;
     bookmarksFlag := Some b |}.

(** Scenario A of the specification. *)
Definition scenarioA : Database :=
  {| visits := [(100, "a"); (50, "a"); (200, "b")]; bookmarks := [] |}.

(** Scenario B of the specification. *)
Definition scenarioB : Database :=
  {| visits := [(90, "x"); (250, "x")]; bookmarks := [(300, "x")] |}.

(** Three visited pages and three bookmarked pages. *)
Definition threePages : Database :=
  {| visits := [(10, "a"); (20, "b"); (30, "c")];
     bookmarks := [(15, "d"); (25, "e"); (35, "f")] |}.

(** A page that the allow list refuses, with one visit and one bookmark. *)
Definition refusedPage : Database :=
  {| visits := [(100, "blocked")]; bookmarks := [(100, "blocked")] |}.

Definition refuseBlocked (url : string) : bool := negb (String.eqb url "blocked").

(** One bookmark later than the window and no visit of its page. *)
Definition stuck : Database :=
  {| visits := []; bookmarks := [(300, "x")] |}.

(** A bookmark later than the window with no visit of its page, and two
    bookmarks in the window: with [skip = 0] and [limit = 2] the loop of
    [lookbackBookmarksTime] runs twice. *)
Definition twoRounds : Database :=
  {| visits := []; bookmarks := [(300, "x"); (100, "a"); (90, "b")] |}.

(** One bookmark later than both dates of an inverted window. *)
Definition lateBookmark : Database :=
  {| visits := []; bookmarks := [(150, "x")] |}.

(** * Properties *)

(** ** The admission rule *)

Section AttemptAddFacts.
Variables (endDate' startDate' : option Z).

Lemma isBefore_false bound time :
  isBefore bound time = false ↔ ∀ e, bound = Some e → time ≤ e.
Proof.
  destruct bound as [b|]; simpl.
  - rewrite Z.ltb_ge. split; [intros ? ? [= <-]; lia | eauto].
  - split; [intros _ ? [=] | done].
Qed.

Lemma isAfter_false bound time :
  isAfter bound time = false ↔ ∀ s, bound = Some s → s ≤ time.
Proof.
  destruct bound as [b|]; simpl.
  - rewrite Z.gtb_ltb, Z.ltb_ge. split; [intros ? ? [= <-]; lia | eauto].
  - split; [intros _ ? [=] | done].
Qed.

Lemma attemptAdd_true m skip time url :
  (attemptAdd endDate' startDate' m skip time url).2 = true ↔
  default 0 (m !! url) ≤ time ∧ (skip = true ∨ withinBounds endDate' startDate' time).
Proof.
  unfold attemptAdd, withinBounds.
  rewrite <- isBefore_false, <- isAfter_false.
  destruct (default 0 (m !! url) >? time) eqn:Hex;
    rewrite Z.gtb_ltb in Hex; [apply Z.ltb_lt in Hex | apply Z.ltb_ge in Hex];
    destruct skip, (isBefore endDate' time), (isAfter startDate' time); simpl;
    split; try done; try (intros [? ?]; lia); try (intros _; split; [lia | auto]);
    intros [? [? | [? ?]]]; done.
Qed.

Lemma attemptAdd_map m skip time url :
  (attemptAdd endDate' startDate' m skip time url).1 =
  if (attemptAdd endDate' startDate' m skip time url).2
  then <[url:=time]> m else m.
Proof. unfold attemptAdd. by case_match. Qed.

(** C3 (as amended): [attemptAdd] writes [time] under [url] exactly when
    no strictly greater time is recorded for the page, an absent entry
    counting as time 0, and the date check is skipped or [time] respects
    the bounds that are defined; the boolean it returns tells whether it
    wrote, and otherwise the map is unchanged. *)
Theorem attemptAdd_admission (m : gmap string Z) (skip : bool) (time : Z) (url : string) :
  ((attemptAdd endDate' startDate' m skip time url).2 = true ↔
     default 0 (m !! url) ≤ time
     ∧ (skip = true ∨ withinBounds endDate' startDate' time))
  ∧ (attemptAdd endDate' startDate' m skip time url).1 =
    (if (attemptAdd endDate' startDate' m skip time url).2
     then <[url:=time]> m else m).
Proof. split; [apply attemptAdd_true | apply attemptAdd_map]. Qed.

Lemma attemptAdd_lookup_le m skip time url t :
  m !! url = Some t →
  ∃ t', (attemptAdd endDate' startDate' m skip time url).1 !! url = Some t' ∧ t ≤ t'.
Proof.
  intros Hm. rewrite attemptAdd_map.
  destruct (attemptAdd endDate' startDate' m skip time url).2 eqn:Hadd.
  - apply attemptAdd_true in Hadd as [Hle _]. rewrite Hm in Hle; simpl in Hle.
    exists time. by rewrite lookup_insert_eq.
  - exists t. split; [done | lia].
Qed.

(** C9: whatever the map and the sequence of calls of [attemptAdd] on a
    page, the time stored for the page never decreases. *)
Theorem attemptAdd_monotone (calls : list (bool * Z)) (url : string)
    (m : gmap string Z) (t : Z) :
  m !! url = Some t →
  ∃ t', attemptAdds endDate' startDate' calls url m !! url = Some t' ∧ t ≤ t'.
Proof.
  revert m t. induction calls as [|[skip time] calls IH]; intros m t Hm; simpl.
  - exists t. split; [done | lia].
  - destruct (attemptAdd_lookup_le m skip time url t Hm) as (t1 & H1 & Hle1).
    destruct (IH _ _ H1) as (t2 & H2 & Hle2).
    exists t2. split; [exact H2 | lia].
Qed.

Lemma attemptAdd_allWithin m time url :
  allWithin endDate' startDate' m →
  allWithin endDate' startDate' (attemptAdd endDate' startDate' m false time url).1.
Proof.
  intros Hm k t. rewrite attemptAdd_map.
  destruct (attemptAdd endDate' startDate' m false time url).2 eqn:Hadd; [|apply Hm].
  apply attemptAdd_true in Hadd as [_ [? | Hw]]; [done|].
  rewrite lookup_insert. case_decide; [intros [= <-]; exact Hw | apply Hm].
Qed.

(** A merge keeps the times of its target within the bounds. *)
Lemma forEachAttemptAdd_allWithin target source :
  allWithin endDate' startDate' target →
  allWithin endDate' startDate' (forEachAttemptAdd endDate' startDate' target source).
Proof.
  intros Ht. unfold forEachAttemptAdd.
  apply (map_fold_weak_ind (fun acc _ => allWithin endDate' startDate' acc)); [exact Ht|].
  intros url time m acc _ Hacc. by apply attemptAdd_allWithin.
Qed.

Lemma latestEventsOf_allWithin bookmarksOnly db urls :
  allWithin endDate' startDate' (latestEventsOf endDate' startDate' bookmarksOnly db urls).
Proof.
  unfold latestEventsOf.
  do 2 apply forEachAttemptAdd_allWithin.
  intros k t. by rewrite lookup_empty.
Qed.

End AttemptAddFacts.

(** C3 (as stated) fails on a tie: with 100 recorded for a page, a call
    with time 100 writes and returns [true], although an entry with an
    equal time is recorded. *)
Lemma attemptAdd_tie_admitted :
  (attemptAdd (Some 200) (Some 0) {[ "a" := 100 ]} false 100 "a").2 = true
  ∧ ¬ admitsAsSpecified (Some 200) (Some 0) {[ "a" := 100 ]} false 100 "a".
Proof.
  split; [reflexivity|].
  intros [Hno _]. apply (Hno 100); [reflexivity | lia].
Qed.

Lemma attemptAdd_monotone_witness :
  ∃ t', attemptAdds (Some 200) (Some 0) [(false, 50); (true, 300); (false, 120)] "a"
          {[ "a" := 100 ]} !! "a" = Some t' ∧ 100 ≤ t'.
Proof.
  apply (attemptAdd_monotone (Some 200) (Some 0)
           [(false, 50); (true, 300); (false, 120)] "a" {[ "a" := 100 ]} 100).
  reflexivity.
Defined.

(** ** mapUrlsToLatestEvents *)

(** C10: when both dates are defined, every time in the mapping returned
    by [mapUrlsToLatestEvents] lies within [[startDate, endDate]], also
    when [bookmarks] is set: the final merge checks the dates. *)
Theorem mapUrlsToLatestEvents_within_window (db : Database) (params : SearchParams)
    (urls : list string) (s e : Z) (url : string) (t : Z) :
  startDate params = Some s →
  endDate params = Some e →
  mapUrlsToLatestEvents db params urls !! url = Some t →
  s ≤ t ≤ e.
Proof.
  intros Hs He Hlook.
  destruct (latestEventsOf_allWithin (endDate params) (startDate params)
              (bookmarksFlag params) db urls url t Hlook) as [Hend Hstart].
  split; [by apply Hstart | by apply Hend].
Qed.

Lemma mapUrlsToLatestEvents_within_window_witness :
  mapUrlsToLatestEvents scenarioB (query 0 200 0 1 true) ["x"] !! "x" = Some 90
  ∧ 0 ≤ 90 ≤ 200.
Proof.
  split; [reflexivity|].
  apply (mapUrlsToLatestEvents_within_window scenarioB (query 0 200 0 1 true)
           ["x"] 0 200 "x" 90); reflexivity.
Defined.

(** C7: on the visits (100, a), (50, a), (200, b) and no bookmarks, the
    window [[0, 150]] without the bookmarks flag and the pages a and b give
    exactly a -> 100. *)
Theorem mapUrlsToLatestEvents_scenarioA :
  mapUrlsToLatestEvents scenarioA
    {| startDate := Some 0; endDate := Some 150; skip := None; limit := None;
       bookmarksFlag := Some false |} ["a"; "b"] = {[ "a" := 100 ]}.
Proof. vm_compute. reflexivity. Qed.

(** X17: with [startDate > endDate] no time passes the date check of the
    final merge of [mapUrlsToLatestEvents], and the mapping is empty. *)
Lemma mapUrlsToLatestEvents_inverted db params urls s e :
  startDate params = Some s → endDate params = Some e → e < s →
  mapUrlsToLatestEvents db params urls = ∅.
Proof.
  intros Hs He Hinv. apply map_empty. intros url.
  destruct (mapUrlsToLatestEvents db params urls !! url) as [t|] eqn:Hl; [|done].
  pose proof (latestEventsOf_allWithin (endDate params) (startDate params)
                (bookmarksFlag params) db urls url t Hl) as [Hend Hstart].
  specialize (Hend e He). specialize (Hstart s Hs). lia.
Qed.

(** ** Scans with a stop condition *)

Section EachUntil.
Context {St Rec : Type} (stop : St → bool) (callback : St → Rec → St).

Lemma each_until_stopped records s :
  stop s = true → each_until stop callback records s = s.
Proof. intros Hs. destruct records; simpl; [done | by rewrite Hs]. Qed.

(** A property of the state that the callback keeps, on the records of
    the scan and while the stop condition is off, holds at the end. *)
Lemma each_until_ind (P : St → Prop) records s :
  P s →
  (∀ s' r, P s' → stop s' = false → r ∈ records → P (callback s' r)) →
  P (each_until stop callback records s).
Proof.
  revert s. induction records as [|r records IH]; intros s Hs Hstep; simpl; [done|].
  destruct (stop s) eqn:Hstop; [done|].
  apply IH.
  - apply Hstep; [done | done | left].
  - intros s' r' ? ? ?. apply Hstep; [done | done | by right].
Qed.

End EachUntil.

(** ** The merges do not depend on the order of iteration *)

Section MergeFacts.
Variables (endDate' startDate' : option Z).

Lemma attemptAdd_lookup_ne m skip time url k :
  k ≠ url → (attemptAdd endDate' startDate' m skip time url).1 !! k = m !! k.
Proof.
  intros Hk. rewrite attemptAdd_map. case_match; [|done].
  by rewrite lookup_insert_ne.
Qed.

(** What a call does to the entry of its page depends on that entry alone. *)
Lemma attemptAdd_lookup_eq m1 m2 skip time url :
  m1 !! url = m2 !! url →
  (attemptAdd endDate' startDate' m1 skip time url).1 !! url
  = (attemptAdd endDate' startDate' m2 skip time url).1 !! url.
Proof.
  intros Heq. unfold attemptAdd. rewrite Heq.
  case_match; simpl; [done | by rewrite !lookup_insert_eq].
Qed.

(** [source.forEach(attemptAdd(target))], entry by entry. *)
Lemma forEachAttemptAdd_lookup target source k :
  forEachAttemptAdd endDate' startDate' target source !! k
  = match source !! k with
    | Some t => (attemptAdd endDate' startDate' target false t k).1 !! k
    | None => target !! k
    end.
Proof.
  unfold forEachAttemptAdd.
  induction source as [|url time m Hfresh Hfirst IH] using map_first_key_ind.
  - by rewrite map_fold_empty, lookup_empty.
  - rewrite map_fold_insert_first_key by done.
    rewrite lookup_insert. case_decide as Hk.
    + subst k. apply attemptAdd_lookup_eq. by rewrite IH, Hfresh.
    + rewrite attemptAdd_lookup_ne by done. exact IH.
Qed.

(** A scan of the visits of a page leaves the entries of the other pages
    as they are, so the scans of different pages do not interfere. *)
Lemma scanVisitsOf_lookup_ne db latestVisits currUrl k :
  k ≠ currUrl →
  scanVisitsOf endDate' startDate' db latestVisits currUrl !! k = latestVisits !! k.
Proof.
  intros Hk. unfold scanVisitsOf.
  apply (each_until_ind (fun s : gmap string Z * bool => s.2)
           (fun s r => attemptAdd endDate' startDate' s.1 false r.1 r.2)
           (fun s => s.1 !! k = latestVisits !! k)); [done|].
  intros s r Hs _ Hr. unfold whereUrlEquals in Hr.
  apply elem_of_reverse, list_elem_of_filter in Hr as [Hurl _].
  rewrite attemptAdd_lookup_ne by congruence. exact Hs.
Qed.

End MergeFacts.

Lemma addToMap_lookup url time (m : gmap string Z) k :
  addToMap url time m !! k
  = if decide (k = url)
    then (if default 0 (m !! url) <? time then Some time else m !! url)
    else m !! k.
Proof.
  unfold addToMap. case_decide as Hk.
  - subst k. case_match; [by rewrite lookup_insert_eq | done].
  - case_match; [by rewrite lookup_insert_ne | done].
Qed.

(** [source.forEach(addToMap)] over [target], entry by entry. *)
Lemma forEach_addToMap_lookup (target source : gmap string Z) k :
  map_fold addToMap target source !! k
  = match source !! k with
    | Some t => if default 0 (target !! k) <? t then Some t else target !! k
    | None => target !! k
    end.
Proof.
  induction source as [|url time m Hfresh Hfirst IH] using map_first_key_ind.
  - by rewrite map_fold_empty, lookup_empty.
  - rewrite map_fold_insert_first_key by done.
    rewrite addToMap_lookup. destruct (decide (k = url)) as [-> | Hk].
    + by rewrite lookup_insert_eq, IH, Hfresh.
    + rewrite lookup_insert_ne by done. exact IH.
Qed.

Lemma between_inverted (lower upper : Z) (table : list Event) :
  upper < lower → between lower (Finite upper) table = [].
Proof.
  intros Hinv. unfold between.
  induction (byTime table) as [|r l IH]; [done|].
  rewrite filter_cons. case_decide as Hr; [|exact IH].
  apply andb_True in Hr as [Hlo Hup]. simpl in Hup.
  apply Is_true_true, Z.leb_le in Hlo. apply Is_true_true, Z.leb_le in Hup. lia.
Qed.

(** ** lookbackFromEndDate *)

Lemma recordVisit_size isAllowed (m : gmap string Z) r :
  (size (recordVisit isAllowed m r) ≤ S (size m))%nat.
Proof.
  unfold recordVisit. case_match; [|lia].
  rewrite map_size_insert. destruct (m !! r.2); simpl; lia.
Qed.

Lemma recordBookmark_size (m : gmap string Z) r :
  (size (recordBookmark m r) ≤ S (size m))%nat.
Proof.
  unfold recordBookmark. rewrite map_size_insert. destruct (m !! r.2); simpl; lia.
Qed.

(** A scan that stops once [skip + limit] pages are collected, and whose
    callback adds at most one page, collects at most [skip + limit]. *)
Lemma each_until_enough_size {Rec : Type} (callback : gmap string Z → Rec → gmap string Z)
    (skip limit : Z) (records : list Rec) :
  (∀ m r, (size (callback m r) ≤ S (size m))%nat) →
  0 ≤ skip + limit →
  Z.of_nat (size (each_until (enough skip limit) callback records ∅)) ≤ skip + limit.
Proof.
  intros Hcb Hk.
  apply (each_until_ind (enough skip limit) callback
           (fun m => Z.of_nat (size m) ≤ skip + limit)).
  - rewrite map_size_empty. lia.
  - intros m r Hm Hstop _. unfold enough in Hstop.
    rewrite Z.geb_leb in Hstop. apply Z.leb_gt in Hstop.
    specialize (Hcb m r). lia.
Qed.

(** With [skip + limit <= 0] such a scan stops before its first record. *)
Lemma each_until_enough_nonpositive {Rec : Type}
    (callback : gmap string Z → Rec → gmap string Z)
    (skip limit : Z) (records : list Rec) :
  skip + limit ≤ 0 → each_until (enough skip limit) callback records ∅ = ∅.
Proof.
  intros Hk. apply each_until_stopped. unfold enough.
  rewrite map_size_empty, Z.geb_leb. apply Z.leb_le. simpl. lia.
Qed.

(** C8: in [lookbackFromEndDate] the map collected from the visits and
    the map collected from the bookmarks, before they are merged, each
    hold at most [skip + limit] pages. *)
Theorem lookbackFromEndDate_sources_bounded (db : Database) (isAllowed : string → bool)
    (startDate endDate skip limit : Z) :
  0 ≤ skip + limit →
  Z.of_nat (size (latestVisitsScan db isAllowed startDate endDate skip limit)) ≤ skip + limit
  ∧ Z.of_nat (size (latestBookmarksScan db startDate endDate skip limit)) ≤ skip + limit.
Proof.
  intros Hk. split.
  - apply each_until_enough_size; [apply recordVisit_size | done].
  - apply each_until_enough_size; [apply recordBookmark_size | done].
Qed.

Lemma lookbackFromEndDate_sources_bounded_witness :
  Z.of_nat (size (latestVisitsScan threePages (fun _ => true) 0 100 1 1)) ≤ 1 + 1
  ∧ Z.of_nat (size (latestBookmarksScan threePages 0 100 1 1)) ≤ 1 + 1.
Proof.
  apply (lookbackFromEndDate_sources_bounded threePages (fun _ => true) 0 100 1 1).
  lia.
Defined.

(** The pages collected from the visits are all allowed. *)
Lemma latestVisitsScan_allowed db isAllowed startDate endDate skip limit url t :
  latestVisitsScan db isAllowed startDate endDate skip limit !! url = Some t →
  isAllowed url = true.
Proof.
  revert url t.
  apply (each_until_ind (enough skip limit) (recordVisit isAllowed)
           (fun m => ∀ url t, m !! url = Some t → isAllowed url = true)).
  - intros url t. by rewrite lookup_empty.
  - intros m r Hm _ _ url t. unfold recordVisit.
    destruct (isAllowed r.2) eqn:Hallowed; [|rewrite andb_false_r; apply Hm].
    case_match; [|apply Hm].
    rewrite lookup_insert. case_decide; [by subst | apply Hm].
Qed.

(** C2 (fails on the code): the bookmarks scan of [lookbackFromEndDate]
    does not consult the allow list.  The page refused by the allow list is
    left out by the visits scan, is collected by the bookmarks scan, and is
    in the mapping returned. *)
Theorem lookbackFromEndDate_bookmark_not_filtered :
  refuseBlocked "blocked" = false
  ∧ latestVisitsScan refusedPage refuseBlocked 0 200 0 10 = ∅
  ∧ latestBookmarksScan refusedPage 0 200 0 10 = {[ "blocked" := 100 ]}
  ∧ lookbackFromEndDate 1000 refusedPage (query 0 200 0 10 false) refuseBlocked
    = {[ "blocked" := 100 ]}.
Proof. repeat split; vm_compute; reflexivity. Qed.

(** X16: with [startDate > endDate] both scans of [lookbackFromEndDate]
    range over the empty collection and the mapping is empty. *)
Lemma lookbackFromEndDate_inverted now db params isAllowed :
  default now (endDate params) < default 0 (startDate params) →
  lookbackFromEndDate now db params isAllowed = ∅.
Proof.
  intros Hinv. unfold lookbackFromEndDate, latestVisitsScan, latestBookmarksScan, betweenKeys.
  rewrite !between_inverted by done. reflexivity.
Qed.

(** ** The loop of lookbackBookmarksTime *)

Section BookmarksLookbackFacts.
Variables (db : Database) (startDate' endDate' skip' limit' : Z).

Lemma filter_inBounds_inverted (entries : list (string * Z)) :
  endDate' < startDate' → filter (inBounds startDate' endDate') entries = [].
Proof.
  intros Hinv. induction entries as [|e l IH]; [done|].
  rewrite filter_cons. case_decide as He; [|exact IH].
  destruct He. lia.
Qed.

Lemma lookbackBody_inverted st :
  endDate' < startDate' → results st = ∅ →
  results (lookbackBody db startDate' endDate' skip' limit' st) = ∅.
Proof.
  intros Hinv Hres. unfold lookbackBody; simpl.
  rewrite Hres, map_to_list_empty, filter_inBounds_inverted by done.
  reflexivity.
Qed.

(** With [startDate > endDate], whenever the loop ends, it ends with no
    results. *)
Lemma lookbackLoop_inverted fuel st st' :
  endDate' < startDate' → results st = ∅ →
  lookbackLoop db startDate' endDate' skip' limit' fuel st = Fulfilled st' →
  results st' = ∅.
Proof.
  intros Hinv. revert st. induction fuel as [|fuel IH]; intros st Hres; simpl;
    destruct (lookbackCond limit' st); try done; try (by intros [= <-]).
  apply IH. by apply lookbackBody_inverted.
Qed.

(** A state that the body maps to itself while the condition holds is
    never left. *)
Lemma lookbackLoop_stuck st :
  lookbackCond limit' st = true →
  lookbackBody db startDate' endDate' skip' limit' st = st →
  ∀ fuel, lookbackLoop db startDate' endDate' skip' limit' fuel st = Pending.
Proof.
  intros Hcond Hbody fuel. induction fuel as [|fuel IH]; simpl; rewrite Hcond; [done|].
  by rewrite Hbody.
Qed.

(** When the first iteration leads to such a state, the promise of the
    loop is never settled. *)
Lemma lookbackLoop_stuck_after_one st :
  lookbackCond limit' st = true →
  lookbackCond limit' (lookbackBody db startDate' endDate' skip' limit' st) = true →
  lookbackBody db startDate' endDate' skip' limit'
    (lookbackBody db startDate' endDate' skip' limit' st)
  = lookbackBody db startDate' endDate' skip' limit' st →
  ∀ fuel, lookbackLoop db startDate' endDate' skip' limit' fuel st = Pending.
Proof.
  intros Hcond Hcond' Hbody [|fuel]; simpl; rewrite Hcond; [done|].
  by apply lookbackLoop_stuck.
Qed.

(** On an empty bookmark table the loop runs its body once: the condition
    holds at the start and fails after the first iteration. *)
Lemma lookbackLoop_empty_log now fuel :
  bookmarks db = [] → 0 < limit' → 0 < skip' + limit' →
  lookbackCond limit' (lookbackStart now) = true
  ∧ lookbackCond limit'
      (lookbackBody db startDate' endDate' skip' limit' (lookbackStart now)) = false
  ∧ lookbackLoop db startDate' endDate' skip' limit' (S fuel) (lookbackStart now)
    = Fulfilled {| results := ∅; upperBound := Infinity; bmsExhausted := true |}.
Proof.
  intros Hempty Hlimit Hk.
  assert (Hbody : lookbackBody db startDate' endDate' skip' limit' (lookbackStart now)
                  = {| results := ∅; upperBound := Infinity; bmsExhausted := true |}).
  { unfold lookbackBody, fetchBookmarks, between. rewrite Hempty. simpl.
    unfold backfill. rewrite map_fold_empty, map_size_empty, map_to_list_empty. simpl.
    rewrite filter_nil. unfold newMap; simpl. rewrite map_to_list_empty. simpl.
    assert (Hlt : (Z.of_nat 0 <? skip' + limit') = true) by (apply Z.ltb_lt; lia).
    by rewrite Hlt. }
  assert (Hcond : lookbackCond limit' (lookbackStart now) = true).
  { unfold lookbackCond; simpl. rewrite map_size_empty; simpl.
    rewrite andb_true_r. apply Z.ltb_lt. lia. }
  split; [exact Hcond|]. split.
  - rewrite Hbody. unfold lookbackCond; simpl. apply andb_false_r.
  - simpl. rewrite Hcond, Hbody.
    destruct fuel; simpl; unfold lookbackCond; simpl; by rewrite andb_false_r.
Qed.

End BookmarksLookbackFacts.

Lemma lookbackBookmarksTime_inverted fuel now db params r :
  default now (endDate params) < default 0 (startDate params) →
  lookbackBookmarksTime fuel now db params = Fulfilled r → r = ∅.
Proof.
  intros Hinv. unfold lookbackBookmarksTime.
  destruct (lookbackLoop _ _ _ _ _ _ _) as [st| |] eqn:Hloop; try done.
  intros [= <-].
  eapply lookbackLoop_inverted; [exact Hinv | | exact Hloop]. reflexivity.
Qed.

(** C1 (fails on the code): with one bookmark at 300 for a page that has
    no visit, the window [[0, 200]], [skip = 0] and [limit = 1], the loop of
    [lookbackBookmarksTime] does not terminate: the first iteration leaves
    [results] empty, [upperBound] becomes [Infinity] and every later
    iteration fetches the same bookmark again. *)
Theorem lookbackBookmarksTime_stuck (fuel : nat) :
  lookbackBody stuck 0 200 0 1 (lookbackStart 1000)
  = {| results := ∅; upperBound := Infinity; bmsExhausted := false |}
  ∧ lookbackBody stuck 0 200 0 1
      {| results := ∅; upperBound := Infinity; bmsExhausted := false |}
    = {| results := ∅; upperBound := Infinity; bmsExhausted := false |}
  ∧ lookbackBookmarksTime fuel 1000 stuck (query 0 200 0 1 true) = Pending.
Proof.
  split; [vm_compute; reflexivity|]. split; [vm_compute; reflexivity|].
  unfold lookbackBookmarksTime; simpl.
  rewrite lookbackLoop_stuck_after_one; [done | | |]; vm_compute; reflexivity.
Qed.

(** C4 (fails on the code): with [startDate = 100 > endDate = 50] and a
    bookmark at 150, [lookbackBookmarksTime], and [groupLatestEventsByUrl]
    in bookmarks mode, never return: no mapping, empty or not, is
    produced. *)
Theorem lookbackBookmarksTime_inverted_window_pending (fuel : nat) :
  lookbackBookmarksTime fuel 1000 lateBookmark (query 100 50 0 1 true) = Pending
  ∧ groupLatestEventsByUrl fuel 1000 lateBookmark (query 100 50 0 1 true) (fun _ => true)
    = Pending.
Proof.
  assert (H : lookbackBookmarksTime fuel 1000 lateBookmark (query 100 50 0 1 true) = Pending).
  { unfold lookbackBookmarksTime; simpl.
    rewrite lookbackLoop_stuck_after_one; [done | | |]; vm_compute; reflexivity. }
  split; [exact H|]. unfold groupLatestEventsByUrl; simpl. exact H.
Qed.

(** ** groupLatestEventsByUrl and the limit *)

(** C5 (as stated) fails: a query with [limit = 0] is not rejected, it is
    fulfilled with the empty mapping. *)
Lemma groupLatestEventsByUrl_zero_limit_fulfilled :
  groupLatestEventsByUrl 0 1000 threePages (query 0 100 0 0 false) (fun _ => true)
  = Fulfilled ∅
  ∧ groupLatestEventsByUrl 0 1000 threePages (query 0 100 0 0 false) (fun _ => true)
    ≠ Rejected.
Proof. split; [vm_compute; reflexivity | discriminate]. Qed.

(** C5 (as amended): [groupLatestEventsByUrl] has no check of [limit].  A
    query with a non-positive limit is fulfilled: in bookmarks mode with the
    empty mapping, the loop body never running (any fuel, even none, is
    enough); otherwise with the mapping of [lookbackFromEndDate], which is
    empty when [skip + limit <= 0] since both scans stop before their first
    record. *)
Theorem groupLatestEventsByUrl_nonpositive_limit (fuel : nat) (now : Z) (db : Database)
    (params : SearchParams) (isAllowed : string → bool) (l : Z) :
  limit params = Some l → l ≤ 0 →
  groupLatestEventsByUrl fuel now db params isAllowed
  = Fulfilled (if default false (bookmarksFlag params) then ∅
               else lookbackFromEndDate now db params isAllowed)
  ∧ (default 0 (skip params) + l ≤ 0 →
     lookbackFromEndDate now db params isAllowed = ∅).
Proof.
  intros Hl Hle. split.
  - unfold groupLatestEventsByUrl. destruct (default false (bookmarksFlag params)); [|done].
    unfold lookbackBookmarksTime. rewrite Hl; simpl.
    assert (Hcond : lookbackCond l (lookbackStart now) = false).
    { unfold lookbackCond; simpl. rewrite map_size_empty; simpl.
      rewrite andb_true_r. apply Z.ltb_ge. lia. }
    destruct fuel; simpl; by rewrite Hcond.
  - intros Hk. unfold lookbackFromEndDate, latestVisitsScan, latestBookmarksScan.
    rewrite Hl; simpl. rewrite !each_until_enough_nonpositive by done. reflexivity.
Qed.

Lemma groupLatestEventsByUrl_nonpositive_limit_witness :
  groupLatestEventsByUrl 0 1000 threePages (query 0 100 0 0 true) (fun _ => true)
  = Fulfilled ∅
  ∧ (0 + 0 ≤ 0 →
     lookbackFromEndDate 1000 threePages (query 0 100 0 0 true) (fun _ => true) = ∅).
Proof.
  apply (groupLatestEventsByUrl_nonpositive_limit 0 1000 threePages
           (query 0 100 0 0 true) (fun _ => true) 0); [reflexivity | lia].
Defined.

(** ** Order of the reverse scans *)

Global Instance time_le_trans : Transitive time_le.
Proof. unfold time_le. intros a b c ? ?. lia. Qed.

Global Instance key_le_total : Total key_le.
Proof.
  intros a b. unfold key_le, key_leb.
  destruct (Z.lt_trichotomy a.1 b.1) as [Hlt | [Heq | Hgt]].
  - left. apply Z.ltb_lt in Hlt. by rewrite Hlt.
  - destruct (String.leb_total a.2 b.2) as [Hs | Hs].
    + left. apply Z.eqb_eq in Heq. rewrite Heq, Hs. simpl. by rewrite orb_true_r.
    + right. symmetry in Heq. apply Z.eqb_eq in Heq. rewrite Heq, Hs. simpl.
      by rewrite orb_true_r.
  - right. apply Z.ltb_lt in Hgt. by rewrite Hgt.
Qed.

Lemma key_le_time_le a b : key_le a b → time_le a b.
Proof.
  unfold key_le, key_leb, time_le. intros H.
  apply orb_True in H as [H | H].
  - apply Is_true_true, Z.ltb_lt in H. lia.
  - apply andb_True in H as [H _]. apply Is_true_true, Z.eqb_eq in H. lia.
Qed.

Lemma Sorted_weaken {A : Type} (R1 R2 : relation A) (l : list A) :
  (∀ a b, R1 a b → R2 a b) → Sorted R1 l → Sorted R2 l.
Proof.
  intros Himpl. induction 1 as [|a l _ IH Hhd]; constructor; [exact IH|].
  destruct Hhd; constructor. by apply Himpl.
Qed.

Lemma StronglySorted_filter {A : Type} (R : relation A) (P : A → Prop)
    `{∀ x, Decision (P x)} (l : list A) :
  StronglySorted R l → StronglySorted R (filter P l).
Proof.
  induction 1 as [|a l _ IH Hall]; [constructor|].
  rewrite filter_cons. case_decide; [|exact IH].
  constructor; [exact IH|].
  apply Forall_forall. intros x Hx%list_elem_of_filter.
  rewrite Forall_forall in Hall. apply Hall. tauto.
Qed.

Lemma byTime_sorted table : StronglySorted time_le (byTime table).
Proof.
  apply Sorted_StronglySorted; [apply _|].
  apply (Sorted_weaken key_le); [apply key_le_time_le|].
  apply Sorted_merge_sort. apply _.
Qed.

Lemma elem_of_byTime r table : r ∈ byTime table ↔ r ∈ table.
Proof. unfold byTime. by rewrite merge_sort_Permutation. Qed.

(** The visits of a page from the latest to the earliest. *)
Lemma whereUrlEquals_reverse_sorted url table :
  StronglySorted (flip time_le) (reverse (whereUrlEquals url table)).
Proof.
  apply Sorted_StronglySorted; [apply _|].
  apply Sorted_reverse, StronglySorted_Sorted, StronglySorted_filter, byTime_sorted.
Qed.

Lemma elem_of_whereUrlEquals_reverse r url table :
  r ∈ reverse (whereUrlEquals url table) ↔ r ∈ table ∧ r.2 = url.
Proof.
  unfold whereUrlEquals.
  rewrite elem_of_reverse, list_elem_of_filter, elem_of_byTime. tauto.
Qed.

(** ** The backfill step of lookbackBookmarksTime *)

Section BackfillFacts.
Variables (db : Database) (endDate' : Z).

Lemma replaceWithVisit_scan url records bms :
  (each_until (fun s : gmap string Z * bool => s.2) (replaceWithVisit endDate' url)
     records (bms, false)).1
  = match firstUpTo endDate' records with
    | Some v => <[url:=v]> bms
    | None => bms
    end.
Proof.
  unfold firstUpTo. induction records as [|r records IH]; [done|].
  simpl. rewrite filter_cons. unfold replaceWithVisit at 2; simpl.
  destruct (r.1 <=? endDate') eqn:Hle.
  - apply Z.leb_le in Hle. rewrite decide_True by done.
    by rewrite each_until_stopped.
  - apply Z.leb_gt in Hle. rewrite decide_False by lia. exact IH.
Qed.

Lemma firstUpTo_Some records v :
  StronglySorted (flip time_le) records →
  firstUpTo endDate' records = Some v →
  (∃ r, r ∈ records ∧ r.1 = v) ∧ v ≤ endDate'
  ∧ ∀ r, r ∈ records → r.1 ≤ endDate' → r.1 ≤ v.
Proof.
  unfold firstUpTo. induction 1 as [|r0 records Hsorted IH Hall]; [done|].
  rewrite filter_cons. case_decide as Hle; simpl.
  - intros [= <-]. split; [exists r0; split; [left | done]|]. split; [done|].
    intros r [-> | Hr]%elem_of_cons _; [lia|].
    rewrite Forall_forall in Hall. apply (Hall r Hr).
  - intros Hfirst. destruct (IH Hfirst) as ((r & Hr & Hv) & Hv' & Hmax).
    split; [exists r; split; [by right | done]|]. split; [done|].
    intros r' [-> | Hr']%elem_of_cons Hle'; [lia | by apply Hmax].
Qed.

Lemma firstUpTo_None records :
  firstUpTo endDate' records = None ↔ ∀ r, r ∈ records → endDate' < r.1.
Proof.
  unfold firstUpTo. induction records as [|r0 records IH].
  - split; [intros _ r Hr; by apply elem_of_nil in Hr | done].
  - rewrite filter_cons. case_decide as Hle; simpl.
    + split; [done|]. intros Hall. specialize (Hall r0 (list_elem_of_here _ _)). lia.
    + rewrite IH. split.
      * intros Hall r [-> | Hr]%elem_of_cons; [lia | by apply Hall].
      * intros Hall r Hr. apply Hall. by right.
Qed.

(** The scan made for one bookmark finds the most recent visit of its
    page that is not later than [endDate]. *)
Lemma firstUpTo_latest url v :
  isLatestVisitUpTo db endDate' url v →
  firstUpTo endDate' (reverse (whereUrlEquals url (visits db))) = Some v.
Proof.
  intros (Hin & Hle & Hmax).
  destruct (firstUpTo endDate' (reverse (whereUrlEquals url (visits db)))) as [w|] eqn:Hfirst.
  - apply firstUpTo_Some in Hfirst as ((r & Hr & Hw) & Hw' & Hwmax);
      [|apply whereUrlEquals_reverse_sorted].
    apply elem_of_whereUrlEquals_reverse in Hr as [Hr Hurl].
    destruct r as [rt ru]; simpl in *; subst rt ru.
    specialize (Hmax w Hr Hw').
    specialize (Hwmax (v, url)). simpl in Hwmax.
    rewrite elem_of_whereUrlEquals_reverse in Hwmax.
    f_equal. assert (v ≤ w) by (apply Hwmax; [by split | done]). lia.
  - rewrite firstUpTo_None in Hfirst.
    specialize (Hfirst (v, url)). simpl in Hfirst.
    rewrite elem_of_whereUrlEquals_reverse in Hfirst.
    assert (endDate' < v) by (apply Hfirst; by split). lia.
Qed.

Lemma firstUpTo_no_visit url :
  (∀ v, (v, url) ∈ visits db → endDate' < v) →
  firstUpTo endDate' (reverse (whereUrlEquals url (visits db))) = None.
Proof.
  intros Hnone. apply firstUpTo_None. intros [rt ru].
  rewrite elem_of_whereUrlEquals_reverse. simpl. intros [Hr ->]. by apply Hnone.
Qed.

Lemma backfillEntry_lookup url time bms k :
  bms !! url = Some time →
  backfillEntry db endDate' url time bms !! k
  = if decide (k = url) then Some (backfilled db endDate' url time) else bms !! k.
Proof.
  intros Hurl. unfold backfillEntry, backfilled.
  destruct (time >? endDate').
  - rewrite replaceWithVisit_scan.
    destruct (firstUpTo _ _) as [v|]; simpl.
    + rewrite lookup_insert. repeat case_decide; by subst.
    + case_decide; by subst.
  - case_decide; by subst.
Qed.

(** The loop over [bms] gives every entry its backfilled time. *)
Lemma backfill_lookup bms k :
  backfill db endDate' bms !! k = backfilled db endDate' k <$> bms !! k.
Proof.
  unfold backfill.
  cut (∀ m, m ⊆ bms →
         ∀ k, map_fold (backfillEntry db endDate') bms m !! k
              = match m !! k with
                | Some t => Some (backfilled db endDate' k t)
                | None => bms !! k
                end).
  { intros Hcut. rewrite (Hcut bms) by done. by destruct (bms !! k). }
  clear k. intros m.
  induction m as [|url time m Hfresh Hfirst IH] using map_first_key_ind.
  - intros _ k. by rewrite map_fold_empty, lookup_empty.
  - intros Hsub k.
    rewrite map_fold_insert_first_key by done.
    assert (Hm : m ⊆ bms).
    { etrans; [|exact Hsub]. by apply insert_subseteq. }
    assert (Hurl : bms !! url = Some time).
    { eapply lookup_weaken; [|exact Hsub]. apply lookup_insert_eq. }
    rewrite backfillEntry_lookup.
    + rewrite lookup_insert. case_decide as Hk; [by subst; rewrite decide_True|].
      rewrite decide_False by done. apply IH, Hm.
    + rewrite IH by done. by rewrite Hfresh.
Qed.
End BackfillFacts.

(** ** The admit step of lookbackBookmarksTime *)

Lemma foldl_set_lookup (entries : list (string * Z)) (acc : gmap string Z) k :
  NoDup entries.*1 →
  foldl (fun m e => <[e.1:=e.2]> m) acc entries !! k
  = match (list_to_map entries : gmap string Z) !! k with
    | Some v => Some v
    | None => acc !! k
    end.
Proof.
  revert acc. induction entries as [|[k0 v0] entries IH]; intros acc Hnd; simpl.
  - by rewrite lookup_empty.
  - apply NoDup_cons in Hnd as [Hfresh Hnd]. rewrite IH by done. simpl.
    rewrite !lookup_insert. case_decide as Hk.
    + subst k0. by rewrite (not_elem_of_list_to_map_1 _ _ Hfresh).
    + done.
Qed.

(** [new Map([...m])] is [m]. *)
Lemma newMap_map_to_list (m : gmap string Z) : newMap (map_to_list m) = m.
Proof.
  apply map_eq. intros k. unfold newMap.
  rewrite foldl_set_lookup by apply NoDup_fst_map_to_list.
  rewrite list_to_map_to_list, lookup_empty. by destruct (m !! k).
Qed.

(** [new Map([...results, ...admitted])]: the admitted entries are written
    over [results]. *)
Lemma newMap_app_lookup (results0 : gmap string Z) (admitted : list (string * Z)) k :
  NoDup admitted.*1 →
  newMap (map_to_list results0 ++ admitted) !! k
  = match (list_to_map admitted : gmap string Z) !! k with
    | Some v => Some v
    | None => results0 !! k
    end.
Proof.
  intros Hnd. unfold newMap. rewrite foldl_app.
  fold (newMap (map_to_list results0)). rewrite newMap_map_to_list.
  by apply foldl_set_lookup.
Qed.

Lemma NoDup_filter_map_to_list (P : string * Z → Prop) `{∀ e, Decision (P e)}
    (m : gmap string Z) :
  NoDup (filter P (map_to_list m)).*1.
Proof.
  apply (NoDup_fmap_2_strong fst).
  - intros [k1 v1] [k2 v2] [_ H1]%list_elem_of_filter [_ H2]%list_elem_of_filter Hk.
    simpl in Hk; subst k2.
    apply elem_of_map_to_list in H1, H2. congruence.
  - apply NoDup_filter, NoDup_map_to_list.
Qed.

(** The entries that [results] gains in one iteration are the entries of
    the backfilled [bms] within the window. *)
Lemma admit_lookup (startDate' endDate' : Z) (results0 bms : gmap string Z) k :
  newMap (map_to_list results0 ++ filter (inBounds startDate' endDate') (map_to_list bms)) !! k
  = match bms !! k with
    | Some t => if decide (startDate' ≤ t ∧ t ≤ endDate') then Some t else results0 !! k
    | None => results0 !! k
    end.
Proof.
  rewrite newMap_app_lookup by apply NoDup_filter_map_to_list.
  destruct (list_to_map _ !! k) as [v|] eqn:Hl.
  - apply elem_of_list_to_map in Hl; [|apply NoDup_filter_map_to_list].
    apply list_elem_of_filter in Hl as [Hin Hk].
    apply elem_of_map_to_list in Hk. rewrite Hk.
    unfold inBounds in Hin; simpl in Hin. by rewrite decide_True.
  - destruct (bms !! k) as [t|] eqn:Hk; [|done].
    case_decide as Hin; [|done].
    apply not_elem_of_list_to_map_2 in Hl. exfalso. apply Hl.
    apply list_elem_of_fmap. exists (k, t). split; [done|].
    apply list_elem_of_filter. split; [exact Hin | by apply elem_of_map_to_list].
Qed.

(** ** Progress of the loop of lookbackBookmarksTime *)

Lemma Math_min_Finite (values : list Z) (m : Z) :
  Math_min values = Finite m → m ∈ values ∧ ∀ x, x ∈ values → m ≤ x.
Proof.
  revert m. induction values as [|x0 values IH]; intros m; simpl; [done|].
  fold (Math_min values).
  destruct (Math_min values) as [u|] eqn:Hmin.
  - intros [= <-]. destruct (IH u eq_refl) as [Hin Hle]. split.
    + destruct (Z.min_spec x0 u) as [[_ ->] | [_ ->]]; [left | by right].
    + intros x [-> | Hx]%elem_of_cons; [lia|]. specialize (Hle x Hx). lia.
  - intros [= <-]. split; [left|].
    intros x [-> | Hx]%elem_of_cons; [lia|].
    destruct values as [|y values]; [by apply elem_of_nil in Hx|].
    simpl in Hmin. by destruct (Math_min values).
Qed.

Lemma Math_min_cons_Finite (x : Z) (values : list Z) :
  ∃ m, Math_min (x :: values) = Finite m.
Proof. simpl. fold (Math_min values). destruct (Math_min values); eauto. Qed.

Lemma elem_of_values (m : gmap string Z) (t : Z) :
  t ∈ (map_to_list m).*2 ↔ ∃ k, m !! k = Some t.
Proof.
  rewrite list_elem_of_fmap. split.
  - intros ([k t'] & -> & Hin). exists k. by apply elem_of_map_to_list.
  - intros [k Hk]. exists (k, t). split; [done | by apply elem_of_map_to_list].
Qed.

(** The minimum of a map that is not empty. *)
Lemma Math_min_values (m : gmap string Z) (k : string) (t : Z) :
  m !! k = Some t →
  ∃ lo, Math_min (map_to_list m).*2 = Finite lo
        ∧ (∃ k', m !! k' = Some lo) ∧ ∀ k' t', m !! k' = Some t' → lo ≤ t'.
Proof.
  intros Hk.
  assert (Hin : t ∈ (map_to_list m).*2) by (apply elem_of_values; eauto).
  destruct (map_to_list m).*2 as [|x values] eqn:Hvalues; [by apply elem_of_nil in Hin|].
  destruct (Math_min_cons_Finite x values) as [lo Hlo].
  exists lo. split; [exact Hlo|].
  apply Math_min_Finite in Hlo as [Hlo Hle]. rewrite <- Hvalues in Hlo, Hle.
  split; [by apply elem_of_values|].
  intros k' t' Hk'. apply Hle, elem_of_values. eauto.
Qed.

(** On the integers up to 2^53 in absolute value the subtraction is exact. *)
Lemma double_round_exact (z : Z) :
  -9007199254740992 ≤ z ≤ 9007199254740992 → double_round z = z.
Proof.
  intros Hz. unfold double_round.
  assert (Hle : (Z.abs z <=? 9007199254740992) = true) by (apply Z.leb_le; lia).
  by rewrite Hle.
Qed.

Section ProgressFacts.
Variables (db : Database) (startDate' endDate' skip' limit' : Z).

(** Every fetched bookmark lies between [startDate] and the upper bound. *)
Lemma fetchBookmarks_bounds bound k t :
  fetchBookmarks db startDate' skip' limit' bound !! k = Some t →
  startDate' ≤ t ∧ number_geb bound t = true.
Proof.
  revert k t. unfold fetchBookmarks.
  apply (each_until_ind (enough skip' limit') recordBookmark
           (fun m => ∀ k t, m !! k = Some t → startDate' ≤ t ∧ number_geb bound t = true)).
  - intros k t. by rewrite lookup_empty.
  - intros m r Hm _ Hr k t. unfold recordBookmark.
    rewrite lookup_insert. case_decide; [|apply Hm].
    intros [= <-]. unfold between in Hr.
    apply elem_of_reverse, list_elem_of_filter in Hr as [Hr _].
    apply andb_True in Hr as [Hlo Hup].
    apply Is_true_true, Z.leb_le in Hlo. by apply Is_true_true in Hup.
Qed.

(** Entries that are not later than [endDate] are left as they are. *)
Lemma backfill_in_window (bms : gmap string Z) :
  (∀ k t, bms !! k = Some t → t ≤ endDate') → backfill db endDate' bms = bms.
Proof.
  intros Hle. apply map_eq. intros k. rewrite backfill_lookup.
  destruct (bms !! k) as [t|] eqn:Hk; [|done]. simpl. unfold backfilled.
  specialize (Hle k t Hk).
  assert (Hgt : (t >? endDate') = false) by (rewrite Z.gtb_ltb; apply Z.ltb_ge; lia).
  by rewrite Hgt.
Qed.

Lemma lookbackBody_inv st :
  (∀ k t, results st !! k = Some t → startDate' ≤ t ≤ endDate') →
  lookbackInv startDate' endDate' (lookbackBody db startDate' endDate' skip' limit' st).
Proof.
  intros Hres. split; [reflexivity|].
  intros k t. unfold lookbackBody; simpl. rewrite admit_lookup.
  destruct (backfill _ _ _ !! k) as [t'|]; [|apply Hres].
  case_decide as Hin; [by intros [= <-] | apply Hres].
Qed.

(** While [results] is not empty and the window holds integers on which
    [min - 1] is exact, an iteration that fetches at least one bookmark
    strictly lowers [upperBound]; an iteration that fetches none leaves it
    as it is, and is the last one when [skip + limit > 0]. *)
Lemma lookbackBody_upperBound st u :
  -9007199254740992 < startDate' → endDate' ≤ 9007199254740992 →
  lookbackInv startDate' endDate' st → results st ≠ ∅ → upperBound st = Finite u →
  ∃ u', upperBound (lookbackBody db startDate' endDate' skip' limit' st) = Finite u'
        ∧ u' ≤ u
        ∧ (fetchBookmarks db startDate' skip' limit' (Finite u) ≠ ∅ → u' < u)
        ∧ (fetchBookmarks db startDate' skip' limit' (Finite u) = ∅ →
           0 < skip' + limit' →
           u' = u
           ∧ lookbackCond limit'
               (lookbackBody db startDate' endDate' skip' limit' st) = false).
Proof.
  intros Hsafe_lo Hsafe_hi [Hub Hwin] Hne Hu.
  pose proof (lookbackBody_inv st Hwin) as [_ Hwin'].
  apply map_choose in Hne as (k0 & t0 & Hk0).
  destruct (Math_min_values (results st) k0 t0 Hk0) as (lo & Hlo & [klo Hklo] & Hleast).
  pose proof (Hwin klo lo Hklo) as Hlo_win.
  rewrite Hlo, Hu in Hub. simpl in Hub.
  rewrite double_round_exact in Hub by lia. injection Hub as ->.
  set (bms := fetchBookmarks db startDate' skip' limit' (Finite (lo - 1))).
  assert (Hbms : ∀ k t, bms !! k = Some t → startDate' ≤ t ≤ lo - 1).
  { intros k t Hk. apply fetchBookmarks_bounds in Hk as [? Hup].
    simpl in Hup. apply Z.leb_le in Hup. lia. }
  assert (Hback : backfill db endDate' bms = bms).
  { apply backfill_in_window. intros k t Hk. specialize (Hbms k t Hk). lia. }
  assert (Hnew : ∀ k, results (lookbackBody db startDate' endDate' skip' limit' st) !! k
                      = match bms !! k with Some t => Some t | None => results st !! k end).
  { intros k. unfold lookbackBody; simpl. rewrite Hu. fold bms.
    rewrite admit_lookup, Hback.
    destruct (bms !! k) as [t|] eqn:Hk; [|done].
    specialize (Hbms k t Hk). rewrite decide_True by lia. done. }
  assert (Hklo' : ∃ t, results (lookbackBody db startDate' endDate' skip' limit' st) !! klo
                       = Some t ∧ t ≤ lo).
  { rewrite Hnew. destruct (bms !! klo) as [t|] eqn:Hk.
    - exists t. split; [done|]. specialize (Hbms klo t Hk). lia.
    - exists lo. split; [done | lia]. }
  destruct Hklo' as (t1 & Ht1 & Ht1le).
  destruct (Math_min_values _ klo t1 Ht1) as (lo' & Hlo' & [klo' Hklo'] & Hleast').
  exists (lo' - 1).
  assert (Hupper : upperBound (lookbackBody db startDate' endDate' skip' limit' st)
                   = Finite (lo' - 1)).
  { pose proof (Hwin' klo' lo' Hklo') as Hlo'_win.
    unfold lookbackBody at 1; simpl. unfold lookbackBody in Hlo'; simpl in Hlo'.
    rewrite Hlo'. simpl. by rewrite double_round_exact by lia. }
  split; [exact Hupper|].
  pose proof (Hleast' klo t1 Ht1) as Hlo'le.
  split; [lia|]. split.
  - intros Hfetched. apply map_choose in Hfetched as (k & t & Hk).
    fold bms in Hk. specialize (Hbms k t Hk).
    assert (Hkt : results (lookbackBody db startDate' endDate' skip' limit' st) !! k = Some t)
      by (by rewrite Hnew, Hk).
    specialize (Hleast' k t Hkt). lia.
  - intros Hempty Hpos. fold bms in Hempty. split.
    + rewrite Hnew, Hempty, lookup_empty in Hklo'.
      specialize (Hleast klo' lo' Hklo'). lia.
    + unfold lookbackCond, lookbackBody; simpl. rewrite Hu. fold bms.
      rewrite Hempty, map_size_empty.
      assert (Hlt : (Z.of_nat 0 <? skip' + limit') = true) by (apply Z.ltb_lt; lia).
      rewrite Hlt. apply andb_false_r.
Qed.

End ProgressFacts.

(** C6: in an iteration of the loop of [lookbackBookmarksTime], an entry
    of the fetched batch that is later than [endDate] gets the most recent
    visit time of its page that is not later than [endDate], and [results]
    takes the page at that time when it is not before [startDate]; when
    the page has no such visit the entry keeps its time and the admit step
    leaves it out: [results] keeps what it had for the page.  The
    backfill loop does so on any batch.  On the bookmark (300, x), the
    visits (90, x) and (250, x), the window [[0, 200]], [skip = 0] and
    [limit = 1], at any time from 300 on, the result is x -> 90. *)
Theorem lookbackBookmarksTime_backfill :
  (∀ (db : Database) (startDate endDate skip limit : Z) (st : LookbackState)
     (url : string) (time : Z),
     fetchBookmarks db startDate skip limit (upperBound st) !! url = Some time →
     endDate < time →
     (∀ v, isLatestVisitUpTo db endDate url v →
           backfill db endDate (fetchBookmarks db startDate skip limit (upperBound st))
             !! url = Some v
           ∧ results (lookbackBody db startDate endDate skip limit st) !! url
             = (if decide (startDate ≤ v) then Some v else results st !! url))
     ∧ ((∀ v, (v, url) ∈ visits db → endDate < v) →
        backfill db endDate (fetchBookmarks db startDate skip limit (upperBound st))
          !! url = Some time
        ∧ results (lookbackBody db startDate endDate skip limit st) !! url
          = results st !! url))
  ∧ (∀ (db : Database) (endDate : Z) (bms : gmap string Z) (url : string) (time : Z),
       bms !! url = Some time → endDate < time →
       (∀ v, isLatestVisitUpTo db endDate url v →
             backfill db endDate bms !! url = Some v)
       ∧ ((∀ v, (v, url) ∈ visits db → endDate < v) →
          backfill db endDate bms !! url = Some time))
  ∧ (∀ (fuel : nat) (now : Z), 300 ≤ now →
       lookbackBookmarksTime (S fuel) now scenarioB (query 0 200 0 1 true)
       = Fulfilled {[ "x" := 90 ]}).
Proof.
  assert (Hbackfill :
    ∀ (db : Database) (e : Z) (bms : gmap string Z) (url : string) (time : Z),
      bms !! url = Some time → e < time →
      (∀ v, isLatestVisitUpTo db e url v → backfill db e bms !! url = Some v)
      ∧ ((∀ v, (v, url) ∈ visits db → e < v) → backfill db e bms !! url = Some time)).
  { intros db e bms url time Hurl Hlate.
    assert (Hgt : (time >? e) = true) by (rewrite Z.gtb_ltb; apply Z.ltb_lt; lia).
    split.
    - intros v Hv. rewrite backfill_lookup, Hurl; simpl.
      unfold backfilled. by rewrite Hgt, (firstUpTo_latest db e url v Hv).
    - intros Hnone. rewrite backfill_lookup, Hurl; simpl.
      unfold backfilled. by rewrite Hgt, (firstUpTo_no_visit db e url Hnone). }
  split; [|split; [exact Hbackfill|]].
  - intros db s e sk li st url time Hurl Hlate.
    destruct (Hbackfill db e _ url time Hurl Hlate) as [Hreplaced Hkept].
    split.
    + intros v Hv. pose proof (Hreplaced v Hv) as Hb. split; [exact Hb|].
      destruct Hv as (_ & Hle & _).
      unfold lookbackBody; simpl. rewrite admit_lookup, Hb.
      destruct (decide (s ≤ v)) as [Hs | Hs].
      * by rewrite decide_True by lia.
      * by rewrite decide_False by lia.
    + intros Hnone. pose proof (Hkept Hnone) as Hb. split; [exact Hb|].
      unfold lookbackBody; simpl. rewrite admit_lookup, Hb.
      by rewrite decide_False by lia.
  - intros fuel now Hnow. unfold lookbackBookmarksTime; simpl.
    assert (Hfetch : fetchBookmarks scenarioB 0 0 1 (Finite now)
                     = fetchBookmarks scenarioB 0 0 1 (Finite 300)).
    { unfold fetchBookmarks, between.
      change (byTime (bookmarks scenarioB)) with [(300, "x") : Event].
      rewrite !filter_cons, !filter_nil. simpl.
      assert (Hle : (300 <=? now) = true) by (apply Z.leb_le; lia).
      by rewrite Hle. }
    assert (Hbody : lookbackBody scenarioB 0 200 0 1 (lookbackStart now)
                    = {| results := {[ "x" := 90 ]}; upperBound := Finite 89;
                         bmsExhausted := false |}).
    { unfold lookbackBody. simpl upperBound. rewrite Hfetch.
      vm_compute. reflexivity. }
    change (lookbackCond 1 (lookbackStart now)) with true. cbv iota.
    rewrite Hbody. by destruct fuel.
Qed.

Lemma lookbackBookmarksTime_backfill_witness :
  (backfill scenarioB 200 (fetchBookmarks scenarioB 0 0 1 (Finite 1000)) !! "x" = Some 90
   ∧ results (lookbackBody scenarioB 0 200 0 1 (lookbackStart 1000)) !! "x" = Some 90)
  ∧ (backfill stuck 200 (fetchBookmarks stuck 0 0 1 (Finite 1000)) !! "x" = Some 300
     ∧ results (lookbackBody stuck 0 200 0 1 (lookbackStart 1000)) !! "x" = None)
  ∧ lookbackBookmarksTime 1 1000 scenarioB (query 0 200 0 1 true)
    = Fulfilled {[ "x" := 90 ]}.
Proof.
  destruct lookbackBookmarksTime_backfill as (Hiteration & _ & Hscenario).
  split; [|split].
  - apply (Hiteration scenarioB 0 200 0 1 (lookbackStart 1000) "x" 300);
      [reflexivity | lia |].
    repeat split.
    + apply list_elem_of_In. simpl. auto.
    + lia.
    + intros v' Hin%list_elem_of_In Hle. simpl in Hin.
      destruct Hin as [[= <-] | [[= <-] | []]]; lia.
  - apply (Hiteration stuck 0 200 0 1 (lookbackStart 1000) "x" 300);
      [reflexivity | lia |].
    intros v Hin%list_elem_of_In. simpl in Hin. destruct Hin.
  - apply (Hscenario 0%nat 1000). lia.
Defined.

(** * Further properties of the search functions *)

(** ** Where the entries of mapUrlsToLatestEvents come from *)

Lemma foldl_inv {A B : Type} (P : A → Prop) (f : A → B → A) (l : list B) (a : A) :
  P a → (∀ a' x, P a' → x ∈ l → P (f a' x)) → P (foldl f a l).
Proof.
  revert a. induction l as [|x l IH]; intros a Ha Hstep; simpl; [done|].
  apply IH.
  - apply Hstep; [done | left].
  - intros a' y ? ?. apply Hstep; [done | by right].
Qed.

Lemma elem_of_whereUrlAnyOf r urls table :
  r ∈ whereUrlAnyOf urls table ↔ r.2 ∈ urls ∧ r ∈ table.
Proof.
  unfold whereUrlAnyOf, byUrl.
  by rewrite list_elem_of_filter, merge_sort_Permutation.
Qed.

Section EntryFacts.
Variables (endDate' startDate' : option Z).

(** An entry of the map after a call is an entry of the map before it, or
    the pair the call was made with, which then was admitted. *)
Lemma attemptAdd_lookup_cases m skip time url k t :
  (attemptAdd endDate' startDate' m skip time url).1 !! k = Some t →
  m !! k = Some t
  ∨ (k = url ∧ t = time ∧ default 0 (m !! url) ≤ time
     ∧ (skip = true ∨ withinBounds endDate' startDate' time)).
Proof.
  rewrite attemptAdd_map.
  destruct (attemptAdd endDate' startDate' m skip time url).2 eqn:Hadd; [|by left].
  apply attemptAdd_true in Hadd as [Hle Hwin].
  rewrite lookup_insert. case_decide as Hk; [|by left].
  intros [= <-]. right. by subst.
Qed.

(** The times of a map stay non-negative. *)
Lemma attemptAdd_entries (E : string → Z → Prop) m skip time url :
  (∀ k t, m !! k = Some t → 0 ≤ t ∧ E k t) →
  E url time →
  ∀ k t, (attemptAdd endDate' startDate' m skip time url).1 !! k = Some t → 0 ≤ t ∧ E k t.
Proof.
  intros Hm He k t [Hk | (-> & -> & Hle & _)]%attemptAdd_lookup_cases; [by apply Hm|].
  split; [|done].
  destruct (m !! url) as [e|] eqn:Hurl; simpl in Hle; [|done].
  destruct (Hm url e Hurl). lia.
Qed.

Lemma forEachAttemptAdd_entries (E : string → Z → Prop) target source :
  (∀ k t, target !! k = Some t → 0 ≤ t ∧ E k t) →
  (∀ k t, source !! k = Some t → E k t) →
  ∀ k t, forEachAttemptAdd endDate' startDate' target source !! k = Some t → 0 ≤ t ∧ E k t.
Proof.
  intros Ht Hs k t. rewrite forEachAttemptAdd_lookup.
  destruct (source !! k) as [t0|] eqn:Hk; [|apply Ht].
  apply attemptAdd_entries; [exact Ht | by apply Hs].
Qed.

Lemma scanVisitsOf_entries (E : string → Z → Prop) db m currUrl :
  (∀ k t, m !! k = Some t → 0 ≤ t ∧ E k t) →
  (∀ t, (t, currUrl) ∈ visits db → E currUrl t) →
  ∀ k t, scanVisitsOf endDate' startDate' db m currUrl !! k = Some t → 0 ≤ t ∧ E k t.
Proof.
  intros Hm He. unfold scanVisitsOf.
  apply (each_until_ind (fun s : gmap string Z * bool => s.2)
           (fun s r => attemptAdd endDate' startDate' s.1 false r.1 r.2)
           (fun s => ∀ k t, s.1 !! k = Some t → 0 ≤ t ∧ E k t)); [exact Hm|].
  intros s [rt ru] Hs _ Hr. apply elem_of_whereUrlEquals_reverse in Hr as [Hr Hu].
  simpl in *. subst ru. apply attemptAdd_entries; [exact Hs | by apply He].
Qed.

(** Every entry of the map returned is a non-negative event time of a
    requested page, which is bookmarked when [bookmarks] is set. *)
Lemma latestEventsOf_good bookmarksOnly db urls k t :
  latestEventsOf endDate' startDate' bookmarksOnly db urls !! k = Some t →
  goodEntry bookmarksOnly db urls k t.
Proof.
  unfold latestEventsOf. cbv zeta.
  set (G := fun k t => k ∈ urls ∧ isEvent db k t
                       ∧ (default false bookmarksOnly = true → ∃ b, (b, k) ∈ bookmarks db)).
  set (latestBookmarks :=
         foldl (fun m r => (attemptAdd endDate' startDate' m
                              (default false bookmarksOnly) r.1 r.2).1) ∅
           (whereUrlAnyOf urls (bookmarks db))).
  assert (Hb : ∀ k t, latestBookmarks !! k = Some t → 0 ≤ t ∧ G k t).
  { apply (foldl_inv (fun m : gmap string Z => ∀ k t, m !! k = Some t → 0 ≤ t ∧ G k t)).
    - intros k' t'. by rewrite lookup_empty.
    - intros m [rt ru] Hm [Hu Hr]%elem_of_whereUrlAnyOf. simpl in *.
      apply attemptAdd_entries; [exact Hm|].
      split; [done|]. split; [by right | eauto]. }
  set (urlsToCheck := if default false bookmarksOnly
                      then (map_to_list latestBookmarks).*1 else urls).
  assert (Hcheck : ∀ u, u ∈ urlsToCheck →
            u ∈ urls ∧ (default false bookmarksOnly = true → ∃ b, (b, u) ∈ bookmarks db)).
  { intros u Hu. unfold urlsToCheck in Hu.
    destruct (default false bookmarksOnly); [|done].
    apply list_elem_of_fmap in Hu as ([u' t'] & -> & Hin).
    apply elem_of_map_to_list, Hb in Hin as (_ & ? & _ & ?). done. }
  set (latestVisits := foldl (scanVisitsOf endDate' startDate' db) ∅ urlsToCheck).
  assert (Hv : ∀ k t, latestVisits !! k = Some t → 0 ≤ t ∧ G k t).
  { apply (foldl_inv (fun m : gmap string Z => ∀ k t, m !! k = Some t → 0 ≤ t ∧ G k t)).
    - intros k' t'. by rewrite lookup_empty.
    - intros m u Hm Hu. apply scanVisitsOf_entries; [exact Hm|].
      intros t' Ht'. destruct (Hcheck u Hu) as [? ?].
      split; [done|]. split; [by left | done]. }
  intros Hk.
  apply (forEachAttemptAdd_entries G) in Hk as [? (? & ? & ?)]; [done | | intros ? ? ?; by apply Hb].
  apply forEachAttemptAdd_entries; [|intros ? ? ?; by apply Hv].
  intros k' t'. by rewrite lookup_empty.
Qed.

End EntryFacts.

(** X1: every entry of the mapping of [mapUrlsToLatestEvents] is a
    requested page with the time of one of its visits or bookmarks, and
    that time is not negative. *)
Theorem mapUrlsToLatestEvents_sound (db : Database) (params : SearchParams)
    (urls : list string) (url : string) (t : Z) :
  mapUrlsToLatestEvents db params urls !! url = Some t →
  url ∈ urls ∧ 0 ≤ t ∧ ((t, url) ∈ visits db ∨ (t, url) ∈ bookmarks db).
Proof.
  intros Hk. apply latestEventsOf_good in Hk as (? & ? & ? & _). done.
Qed.

Lemma mapUrlsToLatestEvents_sound_witness :
  "a" ∈ ["a"; "b"] ∧ 0 ≤ 100
  ∧ ((100, "a") ∈ visits scenarioA ∨ (100, "a") ∈ bookmarks scenarioA).
Proof.
  apply (mapUrlsToLatestEvents_sound scenarioA (query 0 150 0 10 false) ["a"; "b"] "a" 100).
  reflexivity.
Defined.

(** X2: with [bookmarks] set, every page of the mapping of
    [mapUrlsToLatestEvents] has a bookmark. *)
Theorem mapUrlsToLatestEvents_bookmarked (db : Database) (params : SearchParams)
    (urls : list string) (url : string) (t : Z) :
  bookmarksFlag params = Some true →
  mapUrlsToLatestEvents db params urls !! url = Some t →
  ∃ b, (b, url) ∈ bookmarks db.
Proof.
  intros Hflag Hk. apply latestEventsOf_good in Hk as (_ & _ & _ & Hb).
  apply Hb. by rewrite Hflag.
Qed.

Lemma mapUrlsToLatestEvents_bookmarked_witness :
  ∃ b, (b, "x") ∈ bookmarks scenarioB.
Proof.
  apply (mapUrlsToLatestEvents_bookmarked scenarioB (query 0 200 0 1 true) ["x"] "x" 90);
    reflexivity.
Defined.

(** X3: without requested pages the mapping is empty. *)
Theorem mapUrlsToLatestEvents_no_urls (db : Database) (params : SearchParams) :
  mapUrlsToLatestEvents db params [] = ∅.
Proof.
  apply map_empty. intros k.
  destruct (mapUrlsToLatestEvents db params [] !! k) as [t|] eqn:Hk; [|done].
  apply latestEventsOf_good in Hk as (_ & Hin & _). by apply elem_of_nil in Hin.
Qed.

(** ** mapUrlsToLatestEvents keeps the latest qualifying event *)

Section DominationFacts.
Variables (endDate' startDate' : option Z).

(** A call never lowers the time of any page. *)
Lemma attemptAdd_lookup_mono m skip time url k t :
  m !! k = Some t →
  ∃ t', (attemptAdd endDate' startDate' m skip time url).1 !! k = Some t' ∧ t ≤ t'.
Proof.
  intros Hk. destruct (decide (k = url)) as [-> | Hne].
  - by apply attemptAdd_lookup_le.
  - exists t. rewrite attemptAdd_lookup_ne by done. split; [done | lia].
Qed.

(** After a call with a time that is not negative and passes the date
    check, the page has that time or a later one. *)
Lemma attemptAdd_dominates m skip time url :
  0 ≤ time → (skip = true ∨ withinBounds endDate' startDate' time) →
  ∃ t', (attemptAdd endDate' startDate' m skip time url).1 !! url = Some t' ∧ time ≤ t'.
Proof.
  intros Hpos Hwin. rewrite attemptAdd_map.
  destruct (attemptAdd endDate' startDate' m skip time url).2 eqn:Hadd.
  - exists time. rewrite lookup_insert_eq. split; [done | lia].
  - destruct (m !! url) as [e|] eqn:Hurl.
    + exists e. split; [done|].
      destruct (decide (time ≤ e)) as [|Hlt]; [done|].
      assert (Htrue : (attemptAdd endDate' startDate' m skip time url).2 = true).
      { apply attemptAdd_true. rewrite Hurl; simpl. split; [lia | done]. }
      congruence.
    + assert (Htrue : (attemptAdd endDate' startDate' m skip time url).2 = true).
      { apply attemptAdd_true. rewrite Hurl; simpl. split; [lia | done]. }
      congruence.
Qed.

Lemma scan_mono (records : list Event) (s : gmap string Z * bool) k t :
  s.1 !! k = Some t →
  ∃ t', (each_until (fun s : gmap string Z * bool => s.2)
           (fun s r => attemptAdd endDate' startDate' s.1 false r.1 r.2)
           records s).1 !! k = Some t' ∧ t ≤ t'.
Proof.
  intros Hk.
  apply (each_until_ind (fun s : gmap string Z * bool => s.2)
           (fun s r => attemptAdd endDate' startDate' s.1 false r.1 r.2)
           (fun s => ∃ t', s.1 !! k = Some t' ∧ t ≤ t')).
  - exists t. split; [done | lia].
  - intros s' r (t1 & H1 & Hle1) _ _.
    destruct (attemptAdd_lookup_mono s'.1 false r.1 r.2 k t1 H1) as (t2 & H2 & Hle2).
    exists t2. split; [done | lia].
Qed.

Lemma scanVisitsOf_mono db m currUrl k t :
  m !! k = Some t →
  ∃ t', scanVisitsOf endDate' startDate' db m currUrl !! k = Some t' ∧ t ≤ t'.
Proof. intros Hk. unfold scanVisitsOf. by apply scan_mono. Qed.

(** A scan from the latest record records, for its page, a time that is
    not earlier than any record that qualifies. *)
Lemma scan_dominates (records : list Event) (m : gmap string Z) u t :
  StronglySorted (flip time_le) records →
  (∀ r, r ∈ records → r.2 = u) →
  (t, u) ∈ records → 0 ≤ t → withinBounds endDate' startDate' t →
  ∃ t', (each_until (fun s : gmap string Z * bool => s.2)
           (fun s r => attemptAdd endDate' startDate' s.1 false r.1 r.2)
           records (m, false)).1 !! u = Some t' ∧ t ≤ t'.
Proof.
  intros Hsorted. revert m.
  induction Hsorted as [|r records Hsorted IH Hall]; intros m Hurl Hin Hpos Hwin.
  { by apply elem_of_nil in Hin. }
  simpl.
  assert (Hr : r.2 = u) by (apply Hurl; left).
  pose proof (attemptAdd_map endDate' startDate' m false r.1 r.2) as Hmap.
  destruct (attemptAdd endDate' startDate' m false r.1 r.2) as [m' b] eqn:Hadd.
  simpl in Hmap. destruct b.
  - rewrite each_until_stopped by done. simpl. subst m'.
    exists r.1. rewrite Hr, lookup_insert_eq. split; [done|].
    apply elem_of_cons in Hin as [Heq | Hin]; [subst r; simpl; lia|].
    rewrite Forall_forall in Hall. apply (Hall _ Hin).
  - subst m'. apply elem_of_cons in Hin as [Heq | Hin].
    + subst r. simpl in *.
      destruct (attemptAdd_dominates m false t u Hpos (or_intror Hwin)) as (e & He & Hle).
      rewrite Hadd in He. simpl in He.
      destruct (scan_mono records (m, false) u e He) as (t' & Ht' & Hle').
      exists t'. split; [done | lia].
    + apply IH; [|done..]. intros r' Hr'. apply Hurl. by right.
Qed.

Lemma scanVisitsOf_dominates db m u t :
  (t, u) ∈ visits db → 0 ≤ t → withinBounds endDate' startDate' t →
  ∃ t', scanVisitsOf endDate' startDate' db m u !! u = Some t' ∧ t ≤ t'.
Proof.
  intros Hin Hpos Hwin. unfold scanVisitsOf.
  apply scan_dominates; [apply whereUrlEquals_reverse_sorted | | | done..].
  - intros r Hr. by apply elem_of_whereUrlEquals_reverse in Hr as [_ ?].
  - by apply elem_of_whereUrlEquals_reverse.
Qed.

Lemma foldl_scanVisitsOf_mono db urls m k t :
  m !! k = Some t →
  ∃ t', foldl (scanVisitsOf endDate' startDate' db) m urls !! k = Some t' ∧ t ≤ t'.
Proof.
  revert m t. induction urls as [|u urls IH]; intros m t Hk; simpl.
  - exists t. split; [done | lia].
  - destruct (scanVisitsOf_mono db m u k t Hk) as (t1 & H1 & Hle1).
    destruct (IH _ _ H1) as (t2 & H2 & Hle2). exists t2. split; [done | lia].
Qed.

Lemma foldl_scanVisitsOf_dominates db urls m u t :
  u ∈ urls → (t, u) ∈ visits db → 0 ≤ t → withinBounds endDate' startDate' t →
  ∃ t', foldl (scanVisitsOf endDate' startDate' db) m urls !! u = Some t' ∧ t ≤ t'.
Proof.
  intros Hu Hin Hpos Hwin. revert m.
  induction urls as [|u0 urls IH]; intros m; [by apply elem_of_nil in Hu|].
  simpl. apply elem_of_cons in Hu as [-> | Hu]; [|by apply IH].
  destruct (scanVisitsOf_dominates db m u0 t Hin Hpos Hwin) as (t1 & H1 & Hle1).
  destruct (foldl_scanVisitsOf_mono db urls _ u0 t1 H1) as (t2 & H2 & Hle2).
  exists t2. split; [done | lia].
Qed.

Lemma foldl_attemptAdd_mono skip (records : list Event) m k t :
  m !! k = Some t →
  ∃ t', foldl (fun m r => (attemptAdd endDate' startDate' m skip r.1 r.2).1) m records !! k
        = Some t' ∧ t ≤ t'.
Proof.
  revert m t. induction records as [|r records IH]; intros m t Hk; simpl.
  - exists t. split; [done | lia].
  - destruct (attemptAdd_lookup_mono m skip r.1 r.2 k t Hk) as (t1 & H1 & Hle1).
    destruct (IH _ _ H1) as (t2 & H2 & Hle2). exists t2. split; [done | lia].
Qed.

Lemma foldl_attemptAdd_dominates skip (records : list Event) m u t :
  (t, u) ∈ records → 0 ≤ t → (skip = true ∨ withinBounds endDate' startDate' t) →
  ∃ t', foldl (fun m r => (attemptAdd endDate' startDate' m skip r.1 r.2).1) m records !! u
        = Some t' ∧ t ≤ t'.
Proof.
  intros Hin Hpos Hwin. revert m.
  induction records as [|r records IH]; intros m; [by apply elem_of_nil in Hin|].
  simpl. apply elem_of_cons in Hin as [<- | Hin]; [|by apply IH].
  simpl. destruct (attemptAdd_dominates m skip t u Hpos Hwin) as (t1 & H1 & Hle1).
  destruct (foldl_attemptAdd_mono skip records _ u t1 H1) as (t2 & H2 & Hle2).
  exists t2. split; [done | lia].
Qed.

Lemma scanVisitsOf_allWithin db m currUrl :
  allWithin endDate' startDate' m →
  allWithin endDate' startDate' (scanVisitsOf endDate' startDate' db m currUrl).
Proof.
  intros Hm. unfold scanVisitsOf.
  apply (each_until_ind (fun s : gmap string Z * bool => s.2)
           (fun s r => attemptAdd endDate' startDate' s.1 false r.1 r.2)
           (fun s => allWithin endDate' startDate' s.1)); [exact Hm|].
  intros s r Hs _ _. by apply attemptAdd_allWithin.
Qed.

(** A merge with the date check on keeps, for a page of [source] whose
    time passes the check, that time or a later one. *)
Lemma forEachAttemptAdd_dominates target source u t :
  source !! u = Some t → 0 ≤ t → withinBounds endDate' startDate' t →
  ∃ t', forEachAttemptAdd endDate' startDate' target source !! u = Some t' ∧ t ≤ t'.
Proof.
  intros Hu Hpos Hwin. rewrite forEachAttemptAdd_lookup, Hu.
  apply attemptAdd_dominates; [done | by right].
Qed.

Lemma forEachAttemptAdd_mono target source k t :
  target !! k = Some t →
  ∃ t', forEachAttemptAdd endDate' startDate' target source !! k = Some t' ∧ t ≤ t'.
Proof.
  intros Hk. rewrite forEachAttemptAdd_lookup.
  destruct (source !! k) as [t0|]; [by apply attemptAdd_lookup_le|].
  exists t. split; [done | lia].
Qed.

(** Without the bookmarks flag, the mapping gives a requested page a time
    that is not earlier than any of its qualifying events. *)
Lemma latestEventsOf_dominates bookmarksOnly db urls u t :
  default false bookmarksOnly = false →
  u ∈ urls → qualifies endDate' startDate' db u t →
  ∃ t', latestEventsOf endDate' startDate' bookmarksOnly db urls !! u = Some t' ∧ t ≤ t'.
Proof.
  intros Hflag Hu (Hpos & Hwin & [Hvisit | Hbookmark]).
  - unfold latestEventsOf. cbv zeta. rewrite Hflag.
    destruct (foldl_scanVisitsOf_dominates db urls ∅ u t Hu Hvisit Hpos Hwin)
      as (t1 & H1 & Hle1).
    assert (Hwin1 : withinBounds endDate' startDate' t1).
    { revert H1. generalize u t1.
      apply (foldl_inv (allWithin endDate' startDate')).
      - intros k' t'. by rewrite lookup_empty.
      - intros m u' Hm _. by apply scanVisitsOf_allWithin. }
    destruct (forEachAttemptAdd_dominates ∅ _ u t1 H1 ltac:(lia) Hwin1) as (t2 & H2 & Hle2).
    destruct (forEachAttemptAdd_mono _
                (foldl (fun m r => (attemptAdd endDate' startDate' m false r.1 r.2).1) ∅
                   (whereUrlAnyOf urls (bookmarks db))) u t2 H2) as (t3 & H3 & Hle3).
    exists t3. split; [exact H3 | lia].
  - unfold latestEventsOf. cbv zeta. rewrite Hflag.
    assert (Hin : (t, u) ∈ whereUrlAnyOf urls (bookmarks db)).
    { by apply elem_of_whereUrlAnyOf. }
    destruct (foldl_attemptAdd_dominates false _ ∅ u t Hin Hpos (or_intror Hwin))
      as (t1 & H1 & Hle1).
    assert (Hwin1 : withinBounds endDate' startDate' t1).
    { revert H1. generalize u t1.
      apply (foldl_inv (allWithin endDate' startDate')).
      - intros k' t'. by rewrite lookup_empty.
      - intros m r Hm _. by apply attemptAdd_allWithin. }
    destruct (forEachAttemptAdd_dominates
                (forEachAttemptAdd endDate' startDate' ∅
                   (foldl (scanVisitsOf endDate' startDate' db) ∅ urls))
                _ u t1 H1 ltac:(lia) Hwin1) as (t2 & H2 & Hle2).
    exists t2. split; [exact H2 | lia].
Qed.

End DominationFacts.

(** X4: without the bookmarks flag, [mapUrlsToLatestEvents] maps a page
    to [t] exactly when the page is requested and [t] is the latest of its
    qualifying events: the visits and bookmarks of the page whose time is
    not negative and respects the bounds that are defined. *)
Theorem mapUrlsToLatestEvents_latest_event (db : Database) (params : SearchParams)
    (urls : list string) (url : string) (t : Z) :
  default false (bookmarksFlag params) = false →
  (mapUrlsToLatestEvents db params urls !! url = Some t ↔
   url ∈ urls
   ∧ qualifies (endDate params) (startDate params) db url t
   ∧ ∀ t', qualifies (endDate params) (startDate params) db url t' → t' ≤ t).
Proof.
  intros Hflag. unfold mapUrlsToLatestEvents. split.
  - intros Hk.
    pose proof (latestEventsOf_good _ _ _ _ _ _ _ Hk) as (Hpos & Hin & Hev & _).
    pose proof (latestEventsOf_allWithin _ _ _ _ _ _ _ Hk) as Hwin.
    split; [done|]. split; [done|].
    intros t' Hq.
    destruct (latestEventsOf_dominates _ _ _ db urls url t' Hflag Hin Hq) as (t'' & Hk' & Hle).
    rewrite Hk in Hk'. injection Hk' as <-. exact Hle.
  - intros (Hin & Hq & Hmax).
    destruct (latestEventsOf_dominates _ _ _ db urls url t Hflag Hin Hq) as (t' & Hk & Hle).
    pose proof (latestEventsOf_good _ _ _ _ _ _ _ Hk) as (Hpos & _ & Hev & _).
    pose proof (latestEventsOf_allWithin _ _ _ _ _ _ _ Hk) as Hwin.
    assert (t' ≤ t) by (apply Hmax; done).
    rewrite Hk. f_equal. lia.
Qed.

Lemma mapUrlsToLatestEvents_latest_event_witness :
  mapUrlsToLatestEvents scenarioA (query 0 150 0 10 false) ["a"; "b"] !! "a" = Some 100 ↔
  "a" ∈ ["a"; "b"]
  ∧ qualifies (Some 150) (Some 0) scenarioA "a" 100
  ∧ ∀ t', qualifies (Some 150) (Some 0) scenarioA "a" t' → t' ≤ 100.
Proof.
  apply (mapUrlsToLatestEvents_latest_event scenarioA (query 0 150 0 10 false)
           ["a"; "b"] "a" 100).
  reflexivity.
Defined.

(** ** The scans and the merge of lookbackFromEndDate *)

Lemma between_reverse_sorted lower upper table :
  StronglySorted (flip time_le) (reverse (between lower upper table)).
Proof.
  apply Sorted_StronglySorted; [apply _|].
  apply Sorted_reverse, StronglySorted_Sorted, StronglySorted_filter, byTime_sorted.
Qed.

Lemma elem_of_between_reverse r lower upper table :
  r ∈ reverse (between lower (Finite upper) table) ↔ r ∈ table ∧ lower ≤ r.1 ≤ upper.
Proof.
  unfold between. rewrite elem_of_reverse, list_elem_of_filter, elem_of_byTime.
  rewrite andb_True. simpl. rewrite !Is_true_true, !Z.leb_le. tauto.
Qed.

Lemma size_le_of_lookups (m a b : gmap string Z) :
  (∀ k, is_Some (m !! k) → is_Some (a !! k) ∨ is_Some (b !! k)) →
  (size m ≤ size a + size b)%nat.
Proof.
  intros Hdom. rewrite <- !(size_dom (D := gset string)).
  transitivity (size (dom a ∪ dom b)).
  - apply subseteq_size. intros k Hk%elem_of_dom.
    apply elem_of_union. rewrite !elem_of_dom. by apply Hdom.
  - rewrite size_union_alt.
    assert (Hdiff : (size (dom b ∖ dom a) ≤ size (dom b))%nat).
    { apply subseteq_size. apply subseteq_difference_l. done. }
    lia.
Qed.

Lemma mergeLookback_spec (latestVisits latestBookmarks : gmap string Z)
    (url : string) (t : Z) :
  mergeLookback latestVisits latestBookmarks !! url = Some t ↔
  0 < t
  ∧ (latestVisits !! url = Some t ∨ latestBookmarks !! url = Some t)
  ∧ (∀ v, latestVisits !! url = Some v → v ≤ t)
  ∧ (∀ b, latestBookmarks !! url = Some b → b ≤ t).
Proof.
  unfold mergeLookback. rewrite !forEach_addToMap_lookup, lookup_empty. simpl.
  destruct (latestVisits !! url) as [v|], (latestBookmarks !! url) as [b|]; simpl;
    repeat (case_match; simpl);
    repeat match goal with
           | H : (_ <? _) = true |- _ => apply Z.ltb_lt in H
           | H : (_ <? _) = false |- _ => apply Z.ltb_ge in H
           end;
    simpl in *;
    (split;
     [ intros Heq; simplify_eq; repeat split; eauto; try lia; intros; simplify_eq; lia
     | intros (Hpos & Hor & Hmaxv & Hmaxb);
       try (pose proof (Hmaxv _ eq_refl)); try (pose proof (Hmaxb _ eq_refl));
       destruct Hor; simplify_eq; first [ done | f_equal; lia | exfalso; lia ] ]).
Qed.

(** X5: the merge of [lookbackFromEndDate] gives a page the greater of its
    two times, provided that time is positive; a page whose times are all
    zero or negative is left out. *)
Theorem mergeLookback_lookup (latestVisits latestBookmarks : gmap string Z)
    (url : string) (t : Z) :
  mergeLookback latestVisits latestBookmarks !! url = Some t ↔
  0 < t
  ∧ (latestVisits !! url = Some t ∨ latestBookmarks !! url = Some t)
  ∧ (∀ v, latestVisits !! url = Some v → v ≤ t)
  ∧ (∀ b, latestBookmarks !! url = Some b → b ≤ t).
Proof. apply mergeLookback_spec. Qed.

Section EndDateLookbackFacts.
Variables (db : Database) (isAllowed : string → bool).
Variables (startDate' endDate' skip' limit' : Z).

(** The visits scan never replaces an entry; a page it adds is allowed,
    and its time is the first, hence the latest, of its records. *)
Lemma recordVisit_scan (records : list Event) (m : gmap string Z) :
  StronglySorted (flip time_le) records →
  (∀ k t, m !! k = Some t →
          each_until (enough skip' limit') (recordVisit isAllowed) records m !! k = Some t)
  ∧ (∀ k t, m !! k = None →
            each_until (enough skip' limit') (recordVisit isAllowed) records m !! k = Some t →
            isAllowed k = true ∧ (t, k) ∈ records ∧ ∀ t', (t', k) ∈ records → t' ≤ t).
Proof.
  intros Hsorted. revert m.
  induction Hsorted as [|r records Hsorted IH Hall]; intros m; simpl.
  { split; [done|]. intros k t Hnone Hsome. congruence. }
  destruct (enough skip' limit' m) eqn:Hstop.
  { split; [done|]. intros k t Hnone Hsome. congruence. }
  destruct (IH (recordVisit isAllowed m r)) as [IHkeep IHnew].
  assert (Hkeep : ∀ k t, m !! k = Some t → recordVisit isAllowed m r !! k = Some t).
  { intros k t Hk. unfold recordVisit.
    destruct (negb (bool_decide (is_Some (m !! r.2))) && isAllowed r.2) eqn:Hc; [|done].
    apply andb_true_iff in Hc as [Hhas _].
    apply negb_true_iff, bool_decide_eq_false in Hhas.
    rewrite lookup_insert_ne; [done|]. intros Heq. apply Hhas. rewrite Heq. eauto. }
  split; [intros k t Hk; by apply IHkeep, Hkeep|].
  intros k t Hnone Hsome.
  destruct (recordVisit isAllowed m r !! k) as [t0|] eqn:Hk.
  - rewrite (IHkeep k t0 Hk) in Hsome. injection Hsome as ->.
    unfold recordVisit in Hk.
    destruct (negb (bool_decide (is_Some (m !! r.2))) && isAllowed r.2) eqn:Hc;
      [|congruence].
    apply andb_true_iff in Hc as [_ Hallowed].
    rewrite lookup_insert in Hk. case_decide as Hkey; [|congruence].
    injection Hk as <-. subst k. destruct r as [rt ru]; simpl in *.
    split; [done|]. split; [left|].
    intros t' [[= ->] | Hin]%elem_of_cons; [lia|].
    rewrite Forall_forall in Hall. apply (Hall _ Hin).
  - destruct (IHnew k t Hk Hsome) as (Hallowed & Hin & Hmax).
    split; [done|]. split; [by right|].
    intros t' [Heq | Hin']%elem_of_cons; [|by apply Hmax].
    subst r. exfalso. unfold recordVisit in Hk. simpl in Hk.
    rewrite Hnone, Hallowed in Hk. simpl in Hk.
    by rewrite lookup_insert_eq in Hk.
Qed.

(** When the visits scan ends without an allowed page of its records, it
    has stopped on [skip + limit] pages and every recorded time is not
    earlier than the records of that page. *)
Lemma recordVisit_scan_top (records : list Event) (m : gmap string Z) k t :
  StronglySorted (flip time_le) records →
  (t, k) ∈ records → isAllowed k = true →
  each_until (enough skip' limit') (recordVisit isAllowed) records m !! k = None →
  enough skip' limit' (each_until (enough skip' limit') (recordVisit isAllowed) records m)
  = true
  ∧ ∀ k' t', each_until (enough skip' limit') (recordVisit isAllowed) records m !! k'
             = Some t' →
             m !! k' = Some t' ∨ t ≤ t'.
Proof.
  intros Hsorted. revert m.
  induction Hsorted as [|r records Hsorted IH Hall]; intros m Hin Hallowed; simpl.
  { by apply elem_of_nil in Hin. }
  destruct (enough skip' limit' m) eqn:Hstop; [intros _; split; [done | by left]|].
  intros Hnone.
  destruct (recordVisit_scan records (recordVisit isAllowed m r) Hsorted) as [Hkeep _].
  apply elem_of_cons in Hin as [Heq | Hin].
  - subst r. exfalso.
    assert (Hk : is_Some (recordVisit isAllowed m (t, k) !! k)).
    { unfold recordVisit; simpl. rewrite Hallowed, andb_true_r.
      destruct (bool_decide (is_Some (m !! k))) eqn:Hhas; simpl.
      - by apply bool_decide_eq_true in Hhas.
      - rewrite lookup_insert_eq. eauto. }
    destruct Hk as [t0 Hk]. rewrite (Hkeep k t0 Hk) in Hnone. done.
  - destruct (IH _ Hin Hallowed Hnone) as [Henough Htop].
    split; [done|]. intros k' t' Hk'.
    destruct (Htop k' t' Hk') as [Hrec | Hle]; [|by right].
    unfold recordVisit in Hrec. case_match; [|by left].
    rewrite lookup_insert in Hrec. case_decide; [|by left].
    injection Hrec as <-. right.
    rewrite Forall_forall in Hall. apply (Hall _ Hin).
Qed.

Lemma latestBookmarksScan_entries k t :
  latestBookmarksScan db startDate' endDate' skip' limit' !! k = Some t →
  (t, k) ∈ bookmarks db ∧ startDate' ≤ t ≤ endDate'.
Proof.
  revert k t. unfold latestBookmarksScan.
  apply (each_until_ind (enough skip' limit') recordBookmark
           (fun m => ∀ k t, m !! k = Some t →
                            (t, k) ∈ bookmarks db ∧ startDate' ≤ t ≤ endDate')).
  - intros k t. by rewrite lookup_empty.
  - intros m [rt ru] Hm _ Hr k t. unfold recordBookmark. simpl.
    rewrite lookup_insert. case_decide; [|apply Hm].
    intros [= <-]. subst. by apply elem_of_between_reverse in Hr.
Qed.

Lemma latestVisitsScan_entries k t :
  latestVisitsScan db isAllowed startDate' endDate' skip' limit' !! k = Some t →
  isAllowed k = true
  ∧ ((t, k) ∈ visits db ∧ startDate' ≤ t ≤ endDate')
  ∧ ∀ t', (t', k) ∈ visits db → startDate' ≤ t' ≤ endDate' → t' ≤ t.
Proof.
  unfold latestVisitsScan, betweenKeys. intros Hk.
  destruct (recordVisit_scan _ ∅ (between_reverse_sorted startDate' (Finite endDate')
                                    (visits db))) as [_ Hnew].
  destruct (Hnew k t (lookup_empty _) Hk) as (Hallowed & Hin & Hmax).
  split; [done|]. split; [by apply elem_of_between_reverse in Hin|].
  intros t' Hin' Hwin'. apply Hmax. by apply elem_of_between_reverse.
Qed.

End EndDateLookbackFacts.

(** X6: the visits scan of [lookbackFromEndDate] records, for a page, the
    latest of its visits in the window, and only for pages that the allow
    list permits. *)
Theorem latestVisitsScan_latest (db : Database) (isAllowed : string → bool)
    (startDate endDate skip limit : Z) (url : string) (t : Z) :
  latestVisitsScan db isAllowed startDate endDate skip limit !! url = Some t →
  isAllowed url = true
  ∧ (t, url) ∈ visits db ∧ startDate ≤ t ≤ endDate
  ∧ ∀ t', (t', url) ∈ visits db → startDate ≤ t' ≤ endDate → t' ≤ t.
Proof.
  intros Hk. apply latestVisitsScan_entries in Hk as (? & [? ?] & ?). done.
Qed.

Lemma latestVisitsScan_latest_witness :
  (fun _ : string => true) "a" = true
  ∧ (100, "a") ∈ visits scenarioA ∧ 0 ≤ 100 ≤ 150
  ∧ ∀ t', (t', "a") ∈ visits scenarioA → 0 ≤ t' ≤ 150 → t' ≤ 100.
Proof.
  apply (latestVisitsScan_latest scenarioA (fun _ => true) 0 150 0 10 "a" 100).
  reflexivity.
Defined.

(** X7: when an allowed page with a visit in the window is missing from
    the visits scan of [lookbackFromEndDate], the scan has collected
    [skip + limit] pages or more, and each of them at a time that is not
    earlier than that visit: the pages left out are the oldest. *)
Theorem latestVisitsScan_most_recent (db : Database) (isAllowed : string → bool)
    (startDate endDate skip limit : Z) (url : string) (t : Z) :
  isAllowed url = true →
  (t, url) ∈ visits db → startDate ≤ t ≤ endDate →
  latestVisitsScan db isAllowed startDate endDate skip limit !! url = None →
  skip + limit ≤ Z.of_nat (size (latestVisitsScan db isAllowed startDate endDate skip limit))
  ∧ ∀ url' t', latestVisitsScan db isAllowed startDate endDate skip limit !! url' = Some t' →
               t ≤ t'.
Proof.
  intros Hallowed Hin Hwin Hnone. unfold latestVisitsScan, betweenKeys in *.
  destruct (recordVisit_scan_top isAllowed skip limit _ ∅ url t
              (between_reverse_sorted startDate (Finite endDate) (visits db)))
    as [Henough Htop]; [by apply elem_of_between_reverse | done | done |].
  split.
  - unfold enough in Henough. rewrite Z.geb_leb in Henough. by apply Z.leb_le.
  - intros url' t' Hk. destruct (Htop url' t' Hk) as [Hempty | Hle]; [|done].
    by rewrite lookup_empty in Hempty.
Qed.

Lemma latestVisitsScan_most_recent_witness :
  1 + 1 ≤ Z.of_nat (size (latestVisitsScan threePages (fun _ => true) 0 100 1 1))
  ∧ ∀ url' t', latestVisitsScan threePages (fun _ => true) 0 100 1 1 !! url' = Some t' →
               10 ≤ t'.
Proof.
  apply (latestVisitsScan_most_recent threePages (fun _ => true) 0 100 1 1 "a" 10).
  - reflexivity.
  - apply list_elem_of_In. simpl. auto.
  - lia.
  - reflexivity.
Defined.

Lemma lookbackFromEndDate_entries (now : Z) (db : Database) (params : SearchParams)
    (isAllowed : string → bool) (url : string) (t : Z) :
  lookbackFromEndDate now db params isAllowed !! url = Some t →
  0 < t
  ∧ default 0 (startDate params) ≤ t ≤ default now (endDate params)
  ∧ ((t, url) ∈ visits db ∨ (t, url) ∈ bookmarks db).
Proof.
  unfold lookbackFromEndDate. cbv zeta.
  intros (Hpos & [Hv | Hb] & _)%mergeLookback_spec; (split; [done|]).
  - apply latestVisitsScan_entries in Hv as (_ & [? ?] & _). split; [done | by left].
  - apply latestBookmarksScan_entries in Hb as [? ?]. split; [done | by right].
Qed.

(** X8: every entry of the mapping of [lookbackFromEndDate] is the time
    of a visit or of a bookmark of its page, lies in the window, and is
    positive. *)
Theorem lookbackFromEndDate_sound (now : Z) (db : Database) (params : SearchParams)
    (isAllowed : string → bool) (url : string) (t : Z) :
  lookbackFromEndDate now db params isAllowed !! url = Some t →
  0 < t
  ∧ default 0 (startDate params) ≤ t ≤ default now (endDate params)
  ∧ ((t, url) ∈ visits db ∨ (t, url) ∈ bookmarks db).
Proof. apply lookbackFromEndDate_entries. Qed.

Lemma lookbackFromEndDate_sound_witness :
  0 < 30 ∧ 0 ≤ 30 ≤ 100
  ∧ ((30, "c") ∈ visits threePages ∨ (30, "c") ∈ bookmarks threePages).
Proof.
  apply (lookbackFromEndDate_sound 1000 threePages (query 0 100 0 2 false)
           (fun _ => true) "c" 30).
  reflexivity.
Defined.

(** X9: the mapping of [lookbackFromEndDate] holds at most
    [2 * (skip + limit)] pages: the two scans are bounded one by one and
    the merge adds no page. *)
Theorem lookbackFromEndDate_size (now : Z) (db : Database) (params : SearchParams)
    (isAllowed : string → bool) :
  0 ≤ default 0 (skip params) + default 10 (limit params) →
  Z.of_nat (size (lookbackFromEndDate now db params isAllowed))
  ≤ 2 * (default 0 (skip params) + default 10 (limit params)).
Proof.
  intros Hk. unfold lookbackFromEndDate. cbv zeta.
  set (lv := latestVisitsScan _ _ _ _ _ _). set (lb := latestBookmarksScan _ _ _ _ _).
  assert (Hsize : (size (mergeLookback lv lb) ≤ size lv + size lb)%nat).
  { apply size_le_of_lookups. intros k [t Hkt].
    apply mergeLookback_spec in Hkt as (_ & [? | ?] & _); eauto. }
  assert (Z.of_nat (size lv) ≤ default 0 (skip params) + default 10 (limit params)).
  { apply each_until_enough_size; [apply recordVisit_size | done]. }
  assert (Z.of_nat (size lb) ≤ default 0 (skip params) + default 10 (limit params)).
  { apply each_until_enough_size; [apply recordBookmark_size | done]. }
  lia.
Qed.

Lemma lookbackFromEndDate_size_witness :
  Z.of_nat (size (lookbackFromEndDate 1000 threePages (query 0 100 0 2 false)
                    (fun _ => true)))
  ≤ 2 * (0 + 2).
Proof.
  apply (lookbackFromEndDate_size 1000 threePages (query 0 100 0 2 false) (fun _ => true)).
  simpl. lia.
Defined.

(** ** What lookbackBookmarksTime returns *)

Section BookmarksLookbackResults.
Variables (db : Database) (startDate' endDate' skip' limit' : Z).

(** Every fetched entry is a bookmark of the store. *)
Lemma fetchBookmarks_elem bound k t :
  fetchBookmarks db startDate' skip' limit' bound !! k = Some t → (t, k) ∈ bookmarks db.
Proof.
  revert k t. unfold fetchBookmarks.
  apply (each_until_ind (enough skip' limit') recordBookmark
           (fun m => ∀ k t, m !! k = Some t → (t, k) ∈ bookmarks db)).
  - intros k t. by rewrite lookup_empty.
  - intros m [rt ru] Hm _ Hr k t. unfold recordBookmark. simpl.
    rewrite lookup_insert. case_decide; [|apply Hm].
    intros [= <-]. subst k. unfold between in Hr.
    apply elem_of_reverse, list_elem_of_filter in Hr as [_ Hr].
    by apply elem_of_byTime.
Qed.

(** A backfilled time is the time of the entry or of a visit of its page. *)
Lemma backfilled_cases k t :
  backfilled db endDate' k t = t ∨ (backfilled db endDate' k t, k) ∈ visits db.
Proof.
  unfold backfilled. destruct (t >? endDate'); [|by left].
  destruct (firstUpTo endDate' _) as [v|] eqn:Hfirst; simpl; [|by left].
  right. apply firstUpTo_Some in Hfirst as (([rt ru] & Hr & Hv) & _);
    [|apply whereUrlEquals_reverse_sorted].
  apply elem_of_whereUrlEquals_reverse in Hr as [Hr Hu]. simpl in *. by subst.
Qed.

(** The entries of [results] after an iteration: those admitted in the
    iteration, and the entries it had. *)
Lemma lookbackBody_results st k t :
  results (lookbackBody db startDate' endDate' skip' limit' st) !! k = Some t →
  results st !! k = Some t
  ∨ (startDate' ≤ t ≤ endDate'
     ∧ ∃ t0, fetchBookmarks db startDate' skip' limit' (upperBound st) !! k = Some t0
             ∧ t = backfilled db endDate' k t0).
Proof.
  unfold lookbackBody; simpl. rewrite admit_lookup, backfill_lookup.
  destruct (fetchBookmarks _ _ _ _ _ !! k) as [t0|] eqn:Hk; simpl; [|by left].
  case_decide as Hin; [|by left].
  intros [= <-]. right. split; [done|]. by exists t0.
Qed.

Lemma lookbackBody_results_kept st k t :
  results st !! k = Some t →
  is_Some (results (lookbackBody db startDate' endDate' skip' limit' st) !! k).
Proof.
  intros Hk. unfold lookbackBody; simpl. rewrite admit_lookup.
  destruct (backfill _ _ _ !! k) as [t'|]; [|eauto].
  case_decide; eauto.
Qed.

Lemma lookbackBody_size st :
  0 ≤ skip' + limit' →
  Z.of_nat (size (results (lookbackBody db startDate' endDate' skip' limit' st)))
  ≤ Z.of_nat (size (results st)) + (skip' + limit').
Proof.
  intros Hk.
  assert (Hbms : Z.of_nat (size (fetchBookmarks db startDate' skip' limit' (upperBound st)))
                 ≤ skip' + limit').
  { apply each_until_enough_size; [apply recordBookmark_size | done]. }
  assert (Hsize : (size (results (lookbackBody db startDate' endDate' skip' limit' st))
                   ≤ size (results st)
                     + size (fetchBookmarks db startDate' skip' limit' (upperBound st)))%nat).
  { apply size_le_of_lookups. intros k [t Hkt].
    apply lookbackBody_results in Hkt as [? | (_ & t0 & ? & _)]; eauto. }
  lia.
Qed.

(** A property of [results] that the body keeps holds when the loop ends. *)
Lemma lookbackLoop_ind (P : LookbackState → Prop) fuel st st' :
  P st →
  (∀ s, P s → lookbackCond limit' s = true →
        P (lookbackBody db startDate' endDate' skip' limit' s)) →
  lookbackLoop db startDate' endDate' skip' limit' fuel st = Fulfilled st' → P st'.
Proof.
  intros Hst Hstep. revert st Hst.
  induction fuel as [|fuel IH]; intros st Hst; simpl;
    destruct (lookbackCond limit' st) eqn:Hcond; try done; try (by intros [= <-]).
  apply IH. by apply Hstep.
Qed.

(** More fuel does not change the outcome of a loop that has ended. *)
Lemma lookbackLoop_fuel fuel fuel' st st' :
  (fuel ≤ fuel')%nat →
  lookbackLoop db startDate' endDate' skip' limit' fuel st = Fulfilled st' →
  lookbackLoop db startDate' endDate' skip' limit' fuel' st = Fulfilled st'.
Proof.
  revert fuel' st. induction fuel as [|fuel IH]; intros fuel' st Hle; simpl.
  - destruct (lookbackCond limit' st) eqn:Hcond; [done|].
    intros Heq. destruct fuel'; simpl; by rewrite Hcond.
  - destruct (lookbackCond limit' st) eqn:Hcond.
    + destruct fuel' as [|fuel']; [lia|]. simpl. rewrite Hcond. apply IH. lia.
    + intros Heq. destruct fuel'; simpl; by rewrite Hcond.
Qed.

Lemma each_until_recordBookmark_size (records : list Event) (m : gmap string Z) :
  (size (each_until (enough skip' limit') recordBookmark records m)
   ≤ size m + length records)%nat.
Proof.
  revert m. induction records as [|r records IH]; intros m; simpl; [lia|].
  destruct (enough skip' limit' m); [lia|].
  specialize (IH (recordBookmark m r)). pose proof (recordBookmark_size m r). lia.
Qed.

Lemma between_length lower upper (table : list Event) :
  (length (between lower upper table) ≤ length table)%nat.
Proof.
  unfold between, byTime.
  etrans; [apply length_filter|]. by rewrite merge_sort_Permutation.
Qed.

Lemma fetchBookmarks_size bound :
  (size (fetchBookmarks db startDate' skip' limit' bound) ≤ length (bookmarks db))%nat.
Proof.
  unfold fetchBookmarks.
  etrans; [apply each_until_recordBookmark_size|].
  rewrite map_size_empty, length_reverse. simpl. apply between_length.
Qed.

End BookmarksLookbackResults.

Lemma lookbackBookmarksTime_entries (fuel : nat) (now : Z) (db : Database)
    (params : SearchParams) (r : gmap string Z) (url : string) (t : Z) :
  lookbackBookmarksTime fuel now db params = Fulfilled r →
  r !! url = Some t →
  default 0 (startDate params) ≤ t ≤ default now (endDate params)
  ∧ (∃ b, (b, url) ∈ bookmarks db)
  ∧ ((t, url) ∈ visits db ∨ (t, url) ∈ bookmarks db).
Proof.
  unfold lookbackBookmarksTime. cbv zeta.
  destruct (lookbackLoop _ _ _ _ _ _ _) as [st| |] eqn:Hloop; try done.
  intros [= <-]. revert url t.
  eapply (lookbackLoop_ind _ _ _ _ _
           (fun s => ∀ url t, results s !! url = Some t →
              default 0 (startDate params) ≤ t ≤ default now (endDate params)
              ∧ (∃ b, (b, url) ∈ bookmarks db)
              ∧ ((t, url) ∈ visits db ∨ (t, url) ∈ bookmarks db)));
    [| |exact Hloop].
  { intros url t. simpl. by rewrite lookup_empty. }
  intros s Hs _ url t [Hold | (Hwin & t0 & Hfetch & ->)]%lookbackBody_results;
    [by apply Hs|].
  apply fetchBookmarks_elem in Hfetch.
  split; [done|]. split; [eauto|].
  destruct (backfilled_cases db (default now (endDate params)) url t0) as [-> | Hv];
    [by right | by left].
Qed.

(** X10: when [lookbackBookmarksTime] returns, every page of the mapping
    has a bookmark, and its time lies in the window and is the time of that
    bookmark or of a visit of the page. *)
Theorem lookbackBookmarksTime_sound (fuel : nat) (now : Z) (db : Database)
    (params : SearchParams) (r : gmap string Z) (url : string) (t : Z) :
  lookbackBookmarksTime fuel now db params = Fulfilled r →
  r !! url = Some t →
  default 0 (startDate params) ≤ t ≤ default now (endDate params)
  ∧ (∃ b, (b, url) ∈ bookmarks db)
  ∧ ((t, url) ∈ visits db ∨ (t, url) ∈ bookmarks db).
Proof. apply lookbackBookmarksTime_entries. Qed.

Lemma lookbackBookmarksTime_sound_witness :
  0 ≤ 90 ≤ 200
  ∧ (∃ b, (b, "x") ∈ bookmarks scenarioB)
  ∧ ((90, "x") ∈ visits scenarioB ∨ (90, "x") ∈ bookmarks scenarioB).
Proof.
  apply (lookbackBookmarksTime_sound 1 1000 scenarioB (query 0 200 0 1 true)
           {[ "x" := 90 ]} "x" 90); reflexivity.
Defined.

(** X11: when [lookbackBookmarksTime] returns, the mapping holds fewer
    than [limit] pages collected before the last iteration and at most
    [skip + limit] pages added by it. *)
Theorem lookbackBookmarksTime_size (fuel : nat) (now : Z) (db : Database)
    (params : SearchParams) (r : gmap string Z) :
  0 ≤ default 0 (skip params) + default 10 (limit params) →
  lookbackBookmarksTime fuel now db params = Fulfilled r →
  Z.of_nat (size r)
  ≤ Z.max 0 (default 10 (limit params) - 1)
    + (default 0 (skip params) + default 10 (limit params)).
Proof.
  intros Hk. unfold lookbackBookmarksTime. cbv zeta.
  destruct (lookbackLoop _ _ _ _ _ _ _) as [st| |] eqn:Hloop; try done.
  intros [= <-].
  eapply (lookbackLoop_ind _ _ _ _ _
           (fun s => Z.of_nat (size (results s))
                     ≤ Z.max 0 (default 10 (limit params) - 1)
                       + (default 0 (skip params) + default 10 (limit params))));
    [| |exact Hloop].
  { simpl. rewrite map_size_empty. simpl. lia. }
  intros s _ Hcond. unfold lookbackCond in Hcond.
  apply andb_true_iff in Hcond as [Hlt _]. apply Z.ltb_lt in Hlt.
  pose proof (lookbackBody_size db (default 0 (startDate params))
                (default now (endDate params)) _ _ s Hk).
  lia.
Qed.

Lemma lookbackBookmarksTime_size_witness :
  Z.of_nat (size ({[ "x" := 90 ]} : gmap string Z)) ≤ Z.max 0 (1 - 1) + (0 + 1).
Proof.
  apply (lookbackBookmarksTime_size 1 1000 scenarioB (query 0 200 0 1 true) {[ "x" := 90 ]}).
  - simpl. lia.
  - reflexivity.
Defined.

(** X12: when the store holds fewer than [skip + limit] bookmarks,
    [lookbackBookmarksTime] returns after at most one iteration: the first
    batch cannot be full, so the bookmarks are known to be exhausted. *)
Theorem lookbackBookmarksTime_few_bookmarks (fuel : nat) (now : Z) (db : Database)
    (params : SearchParams) :
  Z.of_nat (length (bookmarks db))
  < default 0 (skip params) + default 10 (limit params) →
  ∃ r, lookbackBookmarksTime (S fuel) now db params = Fulfilled r.
Proof.
  intros Hfew. unfold lookbackBookmarksTime. cbv zeta.
  set (s := default 0 (startDate params)). set (e := default now (endDate params)).
  set (sk := default 0 (skip params)). set (li := default 10 (limit params)).
  assert (Hone : ∃ st, lookbackLoop db s e sk li 1 (lookbackStart now) = Fulfilled st).
  { simpl. destruct (lookbackCond li (lookbackStart now)) eqn:Hcond; [|eauto].
    assert (Hend : lookbackCond li (lookbackBody db s e sk li (lookbackStart now)) = false).
    { unfold lookbackCond, lookbackBody. simpl.
      pose proof (fetchBookmarks_size db s sk li (Finite now)) as Hsize.
      assert (Hlt : (Z.of_nat (size (fetchBookmarks db s sk li (Finite now))) <? sk + li)
                    = true) by (apply Z.ltb_lt; fold sk li in Hfew; lia).
      rewrite Hlt. apply andb_false_r. }
    rewrite Hend. eauto. }
  destruct Hone as [st Hst].
  rewrite (lookbackLoop_fuel db s e sk li 1 (S fuel) _ st) by (lia || done). eauto.
Qed.

Lemma lookbackBookmarksTime_few_bookmarks_witness :
  ∃ r, lookbackBookmarksTime 1 1000 stuck (query 0 200 0 2 true) = Fulfilled r.
Proof.
  apply (lookbackBookmarksTime_few_bookmarks 0 1000 stuck (query 0 200 0 2 true)).
  simpl. lia.
Defined.

(** ** Termination of lookbackBookmarksTime once a page is admitted *)

Lemma length_filter_le_impl {A : Type} (P Q : A → Prop)
    `{∀ x, Decision (P x)} `{∀ x, Decision (Q x)} (l : list A) :
  (∀ y, P y → Q y) → (length (filter P l) ≤ length (filter Q l))%nat.
Proof.
  intros Himpl. induction l as [|a l IH]; [done|].
  rewrite !filter_cons. repeat case_decide; simpl; try lia.
  exfalso. auto.
Qed.

Lemma length_filter_lt_impl {A : Type} (P Q : A → Prop)
    `{∀ x, Decision (P x)} `{∀ x, Decision (Q x)} (l : list A) (x : A) :
  (∀ y, P y → Q y) → x ∈ l → Q x → ¬ P x →
  (length (filter P l) < length (filter Q l))%nat.
Proof.
  intros Himpl Hin HQ HP. induction l as [|a l IH]; [by apply elem_of_nil in Hin|].
  rewrite !filter_cons. apply elem_of_cons in Hin as [<- | Hin].
  - rewrite decide_False, decide_True by done. simpl.
    pose proof (length_filter_le_impl P Q l Himpl). lia.
  - specialize (IH Hin). repeat case_decide; simpl; try lia.
    exfalso. auto.
Qed.

(** Lowering the upper bound below a bookmark of the range leaves fewer
    bookmarks in the range. *)
Lemma between_length_lt lower u u' (table : list Event) t k :
  u' ≤ u → (t, k) ∈ table → lower ≤ t ≤ u → u' < t →
  (length (between lower (Finite u') table) < length (between lower (Finite u) table))%nat.
Proof.
  intros Hle Hin Hrange Hlt. unfold between.
  apply (length_filter_lt_impl _ _ _ (t, k)).
  - intros r [Hlo Hup]%andb_True. apply andb_True. split; [done|].
    simpl in *. apply Is_true_true, Z.leb_le in Hup. apply Is_true_true, Z.leb_le. lia.
  - by apply elem_of_byTime.
  - apply andb_True. simpl. split; apply Is_true_true, Z.leb_le; lia.
  - intros [_ Hup]%andb_True. simpl in Hup. apply Is_true_true, Z.leb_le in Hup. lia.
Qed.

Section TerminationFacts.
Variables (db : Database) (startDate' endDate' skip' limit' : Z).

(** While [results] is not empty, every fetched bookmark is admitted with
    its own time. *)
Lemma lookbackBody_results_fetched st u k t :
  -9007199254740992 < startDate' → endDate' ≤ 9007199254740992 →
  lookbackInv startDate' endDate' st → results st ≠ ∅ → upperBound st = Finite u →
  fetchBookmarks db startDate' skip' limit' (Finite u) !! k = Some t →
  results (lookbackBody db startDate' endDate' skip' limit' st) !! k = Some t.
Proof.
  intros Hsafe_lo Hsafe_hi [Hub Hwin] Hne Hu Hfetch.
  apply map_choose in Hne as (k0 & t0 & Hk0).
  destruct (Math_min_values (results st) k0 t0 Hk0) as (lo & Hlo & [klo Hklo] & _).
  pose proof (Hwin klo lo Hklo) as Hlo_win.
  rewrite Hlo, Hu in Hub. simpl in Hub.
  rewrite double_round_exact in Hub by lia. injection Hub as ->.
  assert (Hbms : ∀ k t, fetchBookmarks db startDate' skip' limit' (Finite (lo - 1)) !! k
                        = Some t → startDate' ≤ t ≤ lo - 1).
  { intros k' t' Hk'. apply fetchBookmarks_bounds in Hk' as [? Hup].
    simpl in Hup. apply Z.leb_le in Hup. lia. }
  unfold lookbackBody; simpl. rewrite Hu, admit_lookup, backfill_in_window.
  - rewrite Hfetch. specialize (Hbms k t Hfetch). by rewrite decide_True by lia.
  - intros k' t' Hk'. specialize (Hbms k' t' Hk'). lia.
Qed.

(** An iteration on results that are not empty keeps the invariant, keeps
    results not empty, and lowers [upperBound] below every bookmark it
    has fetched. *)
Lemma lookbackBody_progress st u :
  -9007199254740992 < startDate' → endDate' ≤ 9007199254740992 →
  lookbackInv startDate' endDate' st → results st ≠ ∅ → upperBound st = Finite u →
  lookbackInv startDate' endDate' (lookbackBody db startDate' endDate' skip' limit' st)
  ∧ results (lookbackBody db startDate' endDate' skip' limit' st) ≠ ∅
  ∧ ∃ u', upperBound (lookbackBody db startDate' endDate' skip' limit' st) = Finite u'
          ∧ u' ≤ u
          ∧ ∀ k t, fetchBookmarks db startDate' skip' limit' (Finite u) !! k = Some t →
                   u' < t.
Proof.
  intros Hsafe_lo Hsafe_hi Hinv Hne Hu.
  assert (Hinv' : lookbackInv startDate' endDate'
                    (lookbackBody db startDate' endDate' skip' limit' st)).
  { apply lookbackBody_inv. apply Hinv. }
  assert (Hne' : results (lookbackBody db startDate' endDate' skip' limit' st) ≠ ∅).
  { pose proof Hne as Hne0. apply map_choose in Hne0 as (k0 & t0 & Hk0).
    destruct (lookbackBody_results_kept db startDate' endDate' skip' limit' st k0 t0 Hk0)
      as [t1 Ht1].
    intros Hempty. by rewrite Hempty, lookup_empty in Ht1. }
  split; [exact Hinv'|]. split; [exact Hne'|].
  destruct (lookbackBody_upperBound db startDate' endDate' skip' limit' st u
              Hsafe_lo Hsafe_hi Hinv Hne Hu) as (u' & Hu' & Hle & _).
  exists u'. split; [exact Hu'|]. split; [exact Hle|].
  intros k t Hfetch.
  pose proof (lookbackBody_results_fetched st u k t Hsafe_lo Hsafe_hi Hinv Hne Hu Hfetch)
    as Hkt.
  destruct Hinv' as [Hub' Hwin'].
  destruct (Math_min_values _ k t Hkt) as (lo' & Hlo' & [klo' Hklo'] & Hleast').
  pose proof (Hwin' klo' lo' Hklo') as Hlo'_win.
  rewrite Hlo', Hu' in Hub'. simpl in Hub'.
  rewrite double_round_exact in Hub' by lia. injection Hub' as ->.
  specialize (Hleast' k t Hkt). lia.
Qed.

(** From a state with results, the loop ends within one iteration more
    than there are bookmarks between [startDate] and [upperBound]. *)
Lemma lookbackLoop_terminates (n : nat) st u :
  -9007199254740992 < startDate' → endDate' ≤ 9007199254740992 →
  0 < skip' + limit' →
  lookbackInv startDate' endDate' st → results st ≠ ∅ → upperBound st = Finite u →
  (length (between startDate' (Finite u) (bookmarks db)) ≤ n)%nat →
  ∃ st', lookbackLoop db startDate' endDate' skip' limit' (S n) st = Fulfilled st'.
Proof.
  intros Hsafe_lo Hsafe_hi Hk.
  revert st u. induction n as [|n IH]; intros st u Hinv Hne Hu Hlen; simpl;
    (destruct (lookbackCond limit' st) eqn:Hcond; [|eauto]).
  - destruct (map_choose_or_empty (fetchBookmarks db startDate' skip' limit' (Finite u)))
      as [(k & t & Hfetch) | Hempty].
    + exfalso.
      pose proof (fetchBookmarks_elem _ _ _ _ _ _ _ Hfetch) as Hin.
      apply fetchBookmarks_bounds in Hfetch as [Hlo Hup]. simpl in Hup.
      apply Z.leb_le in Hup.
      assert (Hr : (t, k) ∈ between startDate' (Finite u) (bookmarks db)).
      { unfold between. apply list_elem_of_filter. split; [|by apply elem_of_byTime].
        apply andb_True. simpl. split; apply Is_true_true, Z.leb_le; lia. }
      destruct (between startDate' (Finite u) (bookmarks db)); [|simpl in Hlen; lia].
      by apply elem_of_nil in Hr.
    + destruct (lookbackBody_upperBound db startDate' endDate' skip' limit' st u
                  Hsafe_lo Hsafe_hi Hinv Hne Hu) as (u' & _ & _ & _ & Hlast).
      destruct (Hlast Hempty Hk) as [_ Hend]. rewrite Hend. eauto.
  - destruct (map_choose_or_empty (fetchBookmarks db startDate' skip' limit' (Finite u)))
      as [(k & t & Hfetch) | Hempty].
    + destruct (lookbackBody_progress st u Hsafe_lo Hsafe_hi Hinv Hne Hu)
        as (Hinv' & Hne' & u' & Hu' & Hle & Hlt).
      specialize (Hlt k t Hfetch).
      pose proof (fetchBookmarks_elem _ _ _ _ _ _ _ Hfetch) as Hin.
      apply fetchBookmarks_bounds in Hfetch as [Hlo Hup]. simpl in Hup.
      apply Z.leb_le in Hup.
      pose proof (between_length_lt startDate' u u' (bookmarks db) t k Hle Hin
                    ltac:(lia) Hlt) as Hless.
      apply (IH _ u'); [done..|lia].
    + destruct (lookbackBody_upperBound db startDate' endDate' skip' limit' st u
                  Hsafe_lo Hsafe_hi Hinv Hne Hu) as (u' & _ & _ & _ & Hlast).
      destruct (Hlast Hempty Hk) as [_ Hend]. rewrite Hend. eauto.
Qed.

End TerminationFacts.

(** X13: when the window lies within the integers on which [min - 1]
    is exact ([-2^53 < startDate] and [endDate <= 2^53]) and the first
    iteration of [lookbackBookmarksTime] admits at least one page, the
    loop ends: at most two iterations more than there are bookmarks in the
    store are run. *)
Theorem lookbackBookmarksTime_terminates (fuel : nat) (now : Z) (db : Database)
    (params : SearchParams) :
  -9007199254740992 < default 0 (startDate params) →
  default now (endDate params) ≤ 9007199254740992 →
  0 < default 0 (skip params) + default 10 (limit params) →
  results (lookbackBody db (default 0 (startDate params)) (default now (endDate params))
             (default 0 (skip params)) (default 10 (limit params)) (lookbackStart now)) ≠ ∅ →
  (length (bookmarks db) + 2 ≤ fuel)%nat →
  ∃ r, lookbackBookmarksTime fuel now db params = Fulfilled r.
Proof.
  intros Hsafe_lo Hsafe_hi Hk Hne Hfuel. unfold lookbackBookmarksTime. cbv zeta.
  set (s := default 0 (startDate params)) in *.
  set (e := default now (endDate params)) in *.
  set (sk := default 0 (skip params)) in *. set (li := default 10 (limit params)) in *.
  set (st1 := lookbackBody db s e sk li (lookbackStart now)) in *.
  assert (Hinv : lookbackInv s e st1).
  { apply lookbackBody_inv. intros k t. simpl. by rewrite lookup_empty. }
  assert (Hu : ∃ u, upperBound st1 = Finite u).
  { pose proof Hne as Hne0. apply map_choose in Hne0 as (k0 & t0 & Hk0).
    destruct (Math_min_values _ k0 t0 Hk0) as (lo & Hlo & _).
    destruct Hinv as [Hub _]. rewrite Hlo in Hub. simpl in Hub. eauto. }
  destruct Hu as [u Hu].
  destruct (lookbackLoop_terminates db s e sk li (length (bookmarks db)) st1 u
              Hsafe_lo Hsafe_hi Hk Hinv Hne Hu (between_length _ _ _)) as [st' Hst'].
  assert (Hstart : ∃ st, lookbackLoop db s e sk li (S (S (length (bookmarks db))))
                           (lookbackStart now) = Fulfilled st).
  { simpl. destruct (lookbackCond li (lookbackStart now)); [|eauto].
    fold st1. simpl in Hst'. rewrite Hst'. eauto. }
  destruct Hstart as [st Hst].
  rewrite (lookbackLoop_fuel db s e sk li (S (S (length (bookmarks db)))) fuel
             (lookbackStart now) st); [eauto | lia | exact Hst].
Qed.

Lemma lookbackBookmarksTime_terminates_witness :
  lookbackBookmarksTime 1 1000 twoRounds (query 0 200 0 2 true) = Pending
  ∧ ∃ r, lookbackBookmarksTime 5 1000 twoRounds (query 0 200 0 2 true) = Fulfilled r.
Proof.
  split; [reflexivity|].
  apply (lookbackBookmarksTime_terminates 5 1000 twoRounds (query 0 200 0 2 true)).
  - simpl. lia.
  - simpl. lia.
  - simpl. lia.
  - vm_compute. discriminate.
  - simpl. lia.
Defined.

(** ** Repeated admission keeps the maximum *)

Section AttemptAddsFacts.
Variables (endDate' startDate' : option Z).

Lemma attemptAdds_mono calls url m t :
  m !! url = Some t →
  ∃ t', attemptAdds endDate' startDate' calls url m !! url = Some t' ∧ t ≤ t'.
Proof.
  revert m t. induction calls as [|[skip time] calls IH]; intros m t Hm; simpl.
  - exists t. split; [done | lia].
  - destruct (attemptAdd_lookup_le endDate' startDate' m skip time url t Hm)
      as (t1 & H1 & Hle1).
    destruct (IH _ _ H1) as (t2 & H2 & Hle2). exists t2. split; [done | lia].
Qed.

(** X14: after any sequence of calls of [attemptAdd] on a page, the time
    stored for the page is the time it had or the time of one of the calls,
    and it is not earlier than any call whose time is not negative and
    passes the date check (or skips it): the rule keeps the maximum. *)
Theorem attemptAdds_maximum (calls : list (bool * Z)) (url : string) (m : gmap string Z) :
  (∀ t, attemptAdds endDate' startDate' calls url m !! url = Some t →
        m !! url = Some t ∨ ∃ skip, (skip, t) ∈ calls)
  ∧ (∀ skip t, (skip, t) ∈ calls → 0 ≤ t →
               skip = true ∨ withinBounds endDate' startDate' t →
               ∃ t', attemptAdds endDate' startDate' calls url m !! url = Some t' ∧ t ≤ t').
Proof.
  split.
  - revert m. induction calls as [|[skip time] calls IH]; intros m t; simpl; [by left|].
    intros [Hk | [skip' Hin]]%IH.
    + apply attemptAdd_lookup_cases in Hk as [Hk | (_ & -> & _)]; [by left|].
      right. exists skip. left.
    + right. exists skip'. by right.
  - intros skip t Hin Hpos Hwin. revert m.
    induction calls as [|[skip0 time0] calls IH]; intros m; [by apply elem_of_nil in Hin|].
    simpl. apply elem_of_cons in Hin as [[= <- <-] | Hin]; [|by apply IH].
    destruct (attemptAdd_dominates endDate' startDate' m skip t url Hpos Hwin)
      as (t1 & H1 & Hle1).
    destruct (attemptAdds_mono calls url _ t1 H1) as (t2 & H2 & Hle2).
    exists t2. split; [done | lia].
Qed.

(** With the bookmarks flag, a requested page that has a bookmark with a
    time that is not negative gets a time that is not earlier than any of
    its visits that qualify. *)
Lemma latestEventsOf_dominates_bookmarked db urls u b t :
  u ∈ urls → (b, u) ∈ bookmarks db → 0 ≤ b →
  (t, u) ∈ visits db → 0 ≤ t → withinBounds endDate' startDate' t →
  ∃ t', latestEventsOf endDate' startDate' (Some true) db urls !! u = Some t' ∧ t ≤ t'.
Proof.
  intros Hu Hb Hbpos Hv Hpos Hwin. unfold latestEventsOf. cbv zeta. simpl.
  set (latestBookmarks :=
         foldl (fun m r => (attemptAdd endDate' startDate' m true r.1 r.2).1) ∅
           (whereUrlAnyOf urls (bookmarks db))).
  assert (Hin : (b, u) ∈ whereUrlAnyOf urls (bookmarks db)).
  { by apply elem_of_whereUrlAnyOf. }
  destruct (foldl_attemptAdd_dominates endDate' startDate' true _ ∅ u b Hin Hbpos
              (or_introl eq_refl)) as (b' & Hb' & _).
  fold latestBookmarks in Hb'.
  assert (Hcheck : u ∈ (map_to_list latestBookmarks).*1).
  { apply list_elem_of_fmap. exists (u, b'). split; [done | by apply elem_of_map_to_list]. }
  destruct (foldl_scanVisitsOf_dominates endDate' startDate' db _ ∅ u t Hcheck Hv Hpos Hwin)
    as (t1 & H1 & Hle1).
  assert (Hwin1 : withinBounds endDate' startDate' t1).
  { revert H1. generalize u t1.
    apply (foldl_inv (allWithin endDate' startDate')).
    - intros k' t'. by rewrite lookup_empty.
    - intros m u' Hm _. by apply scanVisitsOf_allWithin. }
  destruct (forEachAttemptAdd_dominates endDate' startDate' ∅ _ u t1 H1 ltac:(lia) Hwin1)
    as (t2 & H2 & Hle2).
  destruct (forEachAttemptAdd_mono endDate' startDate' _ latestBookmarks u t2 H2)
    as (t3 & H3 & Hle3).
  exists t3. split; [exact H3 | lia].
Qed.

End AttemptAddsFacts.

Lemma attemptAdds_maximum_witness :
  ∃ t', attemptAdds (Some 200) (Some 0) [(false, 50); (true, 300); (false, 120)] "a"
          {[ "a" := 100 ]} !! "a" = Some t' ∧ 300 ≤ t'.
Proof.
  destruct (attemptAdds_maximum (Some 200) (Some 0)
              [(false, 50); (true, 300); (false, 120)] "a" {[ "a" := 100 ]}) as [_ Hmax].
  apply (Hmax true 300); [|lia | by left].
  apply list_elem_of_In. simpl. auto.
Defined.

(** X15: with the bookmarks flag, [mapUrlsToLatestEvents] gives a
    requested page that has a bookmark (at a time that is not negative) a
    time that is not earlier than any visit of the page, not negative,
    that respects the bounds that are defined: a bookmark outside the
    window does not hide the visits inside it. *)
Theorem mapUrlsToLatestEvents_bookmarked_visits (db : Database) (params : SearchParams)
    (urls : list string) (url : string) (b t : Z) :
  bookmarksFlag params = Some true →
  url ∈ urls → (b, url) ∈ bookmarks db → 0 ≤ b →
  (t, url) ∈ visits db → 0 ≤ t → withinBounds (endDate params) (startDate params) t →
  ∃ t', mapUrlsToLatestEvents db params urls !! url = Some t' ∧ t ≤ t'.
Proof.
  intros Hflag Hu Hb Hbpos Hv Hpos Hwin. unfold mapUrlsToLatestEvents. rewrite Hflag.
  by apply (latestEventsOf_dominates_bookmarked _ _ db urls url b t).
Qed.

Lemma mapUrlsToLatestEvents_bookmarked_visits_witness :
  ∃ t', mapUrlsToLatestEvents scenarioB (query 0 200 0 1 true) ["x"] !! "x" = Some t'
        ∧ 90 ≤ t'.
Proof.
  apply (mapUrlsToLatestEvents_bookmarked_visits scenarioB (query 0 200 0 1 true)
           ["x"] "x" 300 90).
  - reflexivity.
  - apply list_elem_of_In. simpl. auto.
  - apply list_elem_of_In. simpl. auto.
  - lia.
  - apply list_elem_of_In. simpl. auto.
  - lia.
  - split; intros ? [= <-]; lia.
Defined.

(** ** Witnesses for the inverted windows *)

Lemma lookbackFromEndDate_inverted_witness :
  lookbackFromEndDate 1000 threePages (query 100 50 0 5 false) (fun _ => true) = ∅.
Proof.
  apply (lookbackFromEndDate_inverted 1000 threePages (query 100 50 0 5 false)
           (fun _ => true)).
  simpl. lia.
Defined.

Lemma mapUrlsToLatestEvents_inverted_witness :
  mapUrlsToLatestEvents scenarioB (query 100 50 0 5 true) ["x"] = ∅.
Proof.
  apply (mapUrlsToLatestEvents_inverted scenarioB (query 100 50 0 5 true) ["x"] 100 50);
    [reflexivity | reflexivity | lia].
Defined.

(** ** groupLatestEventsByUrl *)

(** X18: whatever the mode, when [groupLatestEventsByUrl] returns, every
    entry of the mapping is the time of a visit or of a bookmark of its page
    and lies in the window. *)
Theorem groupLatestEventsByUrl_sound (fuel : nat) (now : Z) (db : Database)
    (params : SearchParams) (isAllowed : string → bool) (r : gmap string Z)
    (url : string) (t : Z) :
  groupLatestEventsByUrl fuel now db params isAllowed = Fulfilled r →
  r !! url = Some t →
  default 0 (startDate params) ≤ t ≤ default now (endDate params)
  ∧ ((t, url) ∈ visits db ∨ (t, url) ∈ bookmarks db).
Proof.
  unfold groupLatestEventsByUrl.
  destruct (default false (bookmarksFlag params)).
  - intros Hr Hk.
    destruct (lookbackBookmarksTime_entries fuel now db params r url t Hr Hk) as (? & _ & ?).
    done.
  - intros [= <-] Hk.
    destruct (lookbackFromEndDate_entries now db params isAllowed url t Hk) as (_ & ? & ?).
    done.
Qed.

Lemma groupLatestEventsByUrl_sound_witness :
  0 ≤ 90 ≤ 200
  ∧ ((90, "x") ∈ visits scenarioB ∨ (90, "x") ∈ bookmarks scenarioB).
Proof.
  apply (groupLatestEventsByUrl_sound 1 1000 scenarioB (query 0 200 0 1 true)
           (fun _ => true) {[ "x" := 90 ]} "x" 90); reflexivity.
Defined.
